(** * ExaBGP: the neighbor commands of the control channel and the family
      section of the configuration

    A shallow embedding of

    - [src/exabgp/reactor/api/command/neighbor.py]: the [Neighbor]
      formatter ([as_dict], [extensive], [summary]) and the two registered
      commands [teardown] and [show neighbor];
    - [lib/exabgp/configuration/bgp/family.py]: [SectionFamily._add] and
      [SectionFamily.all];
    - [etc/processes/syslog-1.py]: [_prefixed] and the loop over the lines
      of standard input.

    How the Python is read:

    - a string is a [string] whose characters are the Unicode code
      points below 256, and the built-ins do on them what Python 3 does:
      [isdigit] accepts the ten decimal digits and the superscripts 1, 2
      and 3, which [int] refuses; [split()] and [strip()] take the twelve
      blanks of [str.isspace]; [lower] also lowers the capital letters of
      Latin-1; [int] refuses a numeral longer than the limit of the
      interpreter, a parameter; an integer is an [N] or a [Z]; a value
      that may be [None] is an [option];
    - a dictionary that the code iterates is the list of its items in
      iteration order; a dictionary that the code only writes is a [gmap];
    - what a handler does (answers, lines written to a service, teardown
      requests, log lines, scheduled tasks) is a log carried by a small
      monad, [Eff], which also carries the exception that leaves a
      statement; a method that mutates [self] is a [State];
    - a generator handed to the scheduler is the run it makes when stepped
      to its end, each [yield] included, the reactor being read as of one
      state;
    - the collaborators whose source is outside the two files
      ([limit.extract_neighbors], [limit.match_neighbor], [json.dumps],
      [AFI.value], [SAFI.value], [AFI.implemented_safi],
      [Section._check_duplicate]) are parameters, gathered in classes;
      [match_neighbor] and [json.dumps] are taken not to raise;
    - the seconds given to [timedelta] are whole. *)

From Stdlib Require Import ZArith NArith Ascii String List Bool Lia.
From stdpp Require Import base option list gmap strings.

Local Open Scope string_scope.
Local Open Scope list_scope.

(** ** Python built-ins used by the two files *)

Module Py.

Definition space : ascii := " "%char.
Definition newline : ascii := ascii_of_nat 10.

(** [c in s] for a needle of one character. *)
Fixpoint contains_char (c : ascii) (s : string) : bool :=
  match s with
  | EmptyString => false
  | String a s' => if decide (a = c) then true else contains_char c s'
  end.

(** [s.split(c, 1)]: one cut at most, at the first [c]. *)
Fixpoint split_once (c : ascii) (s : string) : list string :=
  match s with
  | EmptyString => [EmptyString]
  | String a s' =>
      if decide (a = c) then [EmptyString; s']
      else match split_once c s' with
           | h :: t => String a h :: t
           | [] => [String a EmptyString]
           end
  end.

(** [s.split(c)]: a cut at every [c]. *)
Fixpoint split_char (c : ascii) (s : string) : list string :=
  match s with
  | EmptyString => [EmptyString]
  | String a s' =>
      if decide (a = c) then EmptyString :: split_char c s'
      else match split_char c s' with
           | h :: t => String a h :: t
           | [] => [String a EmptyString]
           end
  end.

(** [c.isspace()]: tab, line feed, vertical tab, form feed, carriage
    return, the four separators 28 to 31, space, next line (133) and
    no-break space (160).  These are the blanks of [split()] and of
    [strip()]. *)
Definition is_space (a : ascii) : bool :=
  match a with
  | "009" | "010" | "011" | "012" | "013"
  | "028" | "029" | "030" | "031"
  | " " | "133" | "160" => true
  | _ => false
  end%char.

(** [s.split()]: the maximal runs of non-blank characters.  [cur] is the
    run being read, reversed. *)
Fixpoint rev_string (acc s : string) : string :=
  match s with
  | EmptyString => acc
  | String a s' => rev_string (String a acc) s'
  end.

Definition flush (cur : string) (k : list string) : list string :=
  match cur with
  | EmptyString => k
  | _ => rev_string EmptyString cur :: k
  end.

Fixpoint split_blank (cur : string) (s : string) : list string :=
  match s with
  | EmptyString => flush cur []
  | String a s' =>
      if is_space a then flush cur (split_blank EmptyString s')
      else split_blank (String a cur) s'
  end.

Definition split (s : string) : list string := split_blank EmptyString s.

(** [sep.join(l)] *)
Fixpoint join (sep : string) (l : list string) : string :=
  match l with
  | [] => EmptyString
  | [x] => x
  | x :: l' => x +:+ sep +:+ join sep l'
  end.

(** [c.isdecimal()]: the ten digits.  [c.isdigit()]: these and the
    superscripts two, three and one (178, 179, 185). *)
Definition is_decimal (a : ascii) : bool :=
  match Ascii.is_nat a with Some _ => true | None => false end.

Definition is_digit (a : ascii) : bool :=
  is_decimal a
  || match a with
     | "178" | "179" | "185" => true
     | _ => false
     end%char.

Fixpoint all_digits (s : string) : bool :=
  match s with
  | EmptyString => true
  | String a s' => is_digit a && all_digits s'
  end.

(** [s.isdigit()]: at least one character, and digits only. *)
Definition isdigit (s : string) : bool :=
  match s with
  | EmptyString => false
  | _ => all_digits s
  end.

(** [sys.get_int_max_str_digits()]: the most digits that [int] converts,
    4300 unless set otherwise, 0 for no limit. *)
Class Interpreter := {
  int_max_str_digits : nat;
}.

(** [int(s)] for a string that [isdigit] accepts, the only ones the
    handler gives it: [None] stands for the [ValueError] that [int]
    raises on a digit that is not decimal and on a numeral of more digits
    than the limit, leading zeros counted. *)
Fixpoint int_from (acc : N) (s : string) : option N :=
  match s with
  | EmptyString => Some acc
  | String a s' =>
      match Ascii.is_nat a with
      | Some d => int_from (10 * acc + N.of_nat d)%N s'
      | None => None
      end
  end.

Definition int `{Interpreter} (s : string) : option N :=
  match s with
  | EmptyString => None
  | _ =>
      if negb (int_max_str_digits =? 0)%nat && (int_max_str_digits <? String.length s)%nat
      then None
      else int_from 0%N s
  end.

(** [needle in hay] for strings. *)
Fixpoint startswith (p s : string) : bool :=
  match p, s with
  | EmptyString, _ => true
  | String a p', String b s' => if decide (a = b) then startswith p' s' else false
  | String _ _, EmptyString => false
  end.

Fixpoint contains (needle hay : string) : bool :=
  startswith needle hay ||
  match hay with
  | EmptyString => false
  | String _ hay' => contains needle hay'
  end.

(** [s.lower()]: the capitals A to Z, and those of Latin-1 (192 to 222,
    the multiplication sign 215 apart), go 32 places up. *)
Definition lower_char (a : ascii) : ascii :=
  let n := nat_of_ascii a in
  if (65 <=? n)%nat && (n <=? 90)%nat
     || (192 <=? n)%nat && (n <=? 222)%nat && negb (n =? 215)%nat
  then ascii_of_nat (n + 32) else a.

Fixpoint lower (s : string) : string :=
  match s with
  | EmptyString => EmptyString
  | String a s' => String (lower_char a) (lower s')
  end.

(** ['%d' % n] and ['%s' % n] for integers. *)
Definition digit_char (d : N) : ascii := ascii_of_N (48 + d).

Fixpoint dec_pos (fuel : nat) (n : N) (acc : string) : string :=
  match fuel with
  | O => acc
  | S fuel' =>
      let acc' := String (digit_char (n mod 10)) acc in
      if (n <? 10)%N then acc' else dec_pos fuel' (n / 10) acc'
  end.

Definition str_N (n : N) : string := dec_pos (S (N.to_nat (N.log2 n))) n EmptyString.

Definition str_Z (z : Z) : string :=
  match z with
  | Zneg p => String "-" (str_N (Npos p))
  | _ => str_N (Z.to_N z)
  end.

Fixpoint spaces (n : nat) : string :=
  match n with O => EmptyString | S n' => String space (spaces n') end.

Fixpoint zeros (n : nat) : string :=
  match n with O => EmptyString | S n' => String "0" (zeros n') end.

(** ['%-ws' % s], ['%ws' % s] and ['%0wd' % n] (for [n >= 0]): padding to
    a minimal width, never cutting. *)
Definition ljust (w : nat) (s : string) : string := s +:+ spaces (w - String.length s).
Definition rjust (w : nat) (s : string) : string := spaces (w - String.length s) +:+ s.
Definition zfill (w : nat) (s : string) : string := zeros (w - String.length s) +:+ s.

(** [s.lstrip()] and [s.strip()]: the blanks at the ends go. *)
Fixpoint lstrip (s : string) : string :=
  match s with
  | EmptyString => EmptyString
  | String a s' => if is_space a then lstrip s' else s
  end.

Definition strip (s : string) : string :=
  rev_string EmptyString (lstrip (rev_string EmptyString (lstrip s))).

End Py.


(** ** Exceptions and the effect log *)

Inductive exn :=
| ValueError
| IndexError
| KeyError
| TypeError
| OverflowError
| RaisedFamily (message : string)
| OtherError.

(** A Python expression that returns or raises. *)
Inductive Result (A : Type) : Type :=
| Ok (a : A)
| Raise (e : exn).
Arguments Ok {A} a.
Arguments Raise {A} e.

#[global] Instance result_ret : MRet Result := λ A a, Ok a.
#[global] Instance result_bind : MBind Result := λ A B f r,
  match r with Ok a => f a | Raise e => Raise e end.

(** A statement: the events it caused, then its value or the exception
    that left it.  The events that precede an exception stay. *)
Record Eff (E A : Type) : Type := mkEff { log : list E; outcome : Result A }.
Arguments mkEff {E A} log outcome.
Arguments log {E A} e.
Arguments outcome {E A} e.

#[global] Instance eff_ret {E} : MRet (Eff E) := λ A a, mkEff [] (Ok a).
#[global] Instance eff_bind {E} : MBind (Eff E) := λ A B f c,
  match outcome c with
  | Ok a => mkEff (log c ++ log (f a)) (outcome (f a))
  | Raise e => mkEff (log c) (Raise e)
  end.

Definition tell {E} (e : E) : Eff E unit := mkEff [e] (Ok tt).
Definition lift {E A} (r : Result A) : Eff E A := mkEff [] r.

(** [for x in l: body] *)
Fixpoint for_ {E A} (l : list A) (body : A → Eff E unit) : Eff E unit :=
  match l with
  | [] => mret tt
  | x :: l' => body x ;; for_ l' body
  end.

(** [try: c  except ...: handler]; [handler e = None] when no clause
    catches [e]. *)
Definition try_except {E A} (c : Eff E A) (handler : exn → option (Eff E A)) : Eff E A :=
  match outcome c with
  | Ok a => c
  | Raise e =>
      match handler e with
      | Some h => mkEff (log c ++ log h) (outcome h)
      | None => c
      end
  end.

(** What a generator handed to the asynchronous scheduler does when it is
    stepped: lines written to a service, the [yield] after each, and the
    closing answer. *)
Inductive step :=
| Wrote (service line : string)
| Yielded
| Answered (service : string).

(** A task is recorded by the run it makes when stepped to its end, and
    the exception that stops it, if one does. *)
Definition task : Type := Eff step unit.

(** What a command handler does to the world around it. *)
Inductive event :=
| AnswerDone (service : string)
| AnswerError (service : string)
| Write (service line : string)
| TeardownPeer (key : string) (code : N)
| LogMessage (message : string)
| Schedule (service command : string) (t : task).

(** A method that reads and writes [self]: the state it leaves, then its
    value or the exception that left it.  What was written before an
    exception stays written. *)
Record State (S A : Type) : Type := mkState { run : S → S * Result A }.
Arguments mkState {S A} run.
Arguments run {S A} s.

#[global] Instance state_ret {S} : MRet (State S) := λ A a, mkState (λ s, (s, Ok a)).
#[global] Instance state_bind {S} : MBind (State S) := λ A B f c,
  mkState (λ s,
    match run c s with
    | (s', Ok a) => run (f a) s'
    | (s', Raise e) => (s', Raise e)
    end).

Definition get {S} : State S S := mkState (λ s, (s, Ok s)).
Definition put {S} (s : S) : State S unit := mkState (λ _, (s, Ok tt)).
Definition raise {S A} (e : exn) : State S A := mkState (λ s, (s, Raise e)).

Fixpoint for_each {S A} (l : list A) (body : A → State S unit) : State S unit :=
  match l with
  | [] => mret tt
  | x :: l' => body x ;; for_each l' body
  end.

(** [for c in s] on a string: its characters, each a string of length one. *)
Fixpoint iter_str (s : string) : list string :=
  match s with
  | EmptyString => []
  | String a s' => String a EmptyString :: iter_str s'
  end.

(** [a, b = l] *)
Definition unpack2 {A} (l : list A) : Result (A * A) :=
  match l with
  | [a; b] => Ok (a, b)
  | _ => Raise ValueError
  end.

(** [l[-1]] *)
Definition index_last {A} (l : list A) : Result A :=
  match last l with
  | Some a => Ok a
  | None => Raise IndexError
  end.

(** [l.remove(x)] where [x] is known to be in [l]: the first occurrence
    goes. *)
Fixpoint remove_first (x : string) (l : list string) : list string :=
  match l with
  | [] => []
  | y :: l' => if decide (y = x) then l' else y :: remove_first x l'
  end.

(** [d[k]] on the items of a dictionary. *)
Fixpoint getitem {V} (d : list (string * V)) (k : string) : Result V :=
  match d with
  | [] => Raise KeyError
  | (k', v) :: d' => if decide (k' = k) then Ok v else getitem d' k
  end.

Definition int `{Py.Interpreter} (s : string) : Result N :=
  match Py.int s with
  | Some n => Ok n
  | None => Raise ValueError
  end.

(** ** [datetime.timedelta(seconds=n)] and its [str] *)

Module Timedelta.

Definition max_days : Z := 999999999.

Record t := mk { days : Z; seconds : Z }.

Definition of_seconds (n : Z) : Result t :=
  let d := (n / 86400)%Z in
  if (Z.abs d >? max_days)%Z then Raise OverflowError
  else Ok (mk d (n mod 86400)%Z).

Definition str (d : t) : string :=
  let mm := (seconds d / 60)%Z in
  let ss := (seconds d mod 60)%Z in
  let hh := (mm / 60)%Z in
  let mm := (mm mod 60)%Z in
  let s := Py.str_Z hh +:+ ":" +:+ Py.zfill 2 (Py.str_Z mm) +:+ ":" +:+ Py.zfill 2 (Py.str_Z ss) in
  if decide (days d = 0%Z) then s
  else Py.str_Z (days d) +:+ " day" +:+ (if decide (Z.abs (days d) = 1%Z) then "" else "s") +:+ ", " +:+ s.

End Timedelta.

(** ** [class Neighbor]: rendering one session snapshot *)

Module Neighbor.

(** A flag of the snapshot is [True], [False] or [None]. *)
Definition flag : Type := option bool.

(** Python truth of a flag, and of a number of seconds that may be [None]. *)
Definition truth (v : flag) : bool :=
  match v with Some true => true | _ => false end.

Definition truth_seconds (v : option Z) : bool :=
  match v with Some z => negb (z =? 0)%Z | None => false end.

(** The dictionary returned by [reactor.neighbor_cli_data]: the items of
    its three inner dictionaries are listed in iteration order. *)
Record Answer := {
  local_address : string;
  peer_address : string;
  local_as : N;
  peer_as : option N;
  local_id : string;
  peer_id : option string;
  local_hold : N;
  peer_hold : option N;
  state : string;
  duration : option Z;
  down : option Z;
  capabilities : list (string * (flag * flag));
  families : list ((string * string) * (flag * flag * flag * flag));
  messages : list (string * (N * N));
}.

Definition _en (value : flag) : string :=
  match value with
  | None => "n/a"
  | Some v => if v then "enabled" else "disabled"
  end.

Definition _pr {A} (str : A → string) (value : option A) : string :=
  match value with
  | None => "n/a"
  | Some v => str v
  end.

Definition _addpath (send receive : flag) : string :=
  if truth send && truth receive then "send/receive"
  else if truth send then "send"
  else if truth receive then "receive"
  else "disabled".

Definition summary_header : string :=
  "Peer            AS        up/down state       |     #sent     #recvd".

(** ['   %-20s %15s %15s %15s' % (c1, c2, c3, c4)] *)
Definition extensive_kv (c1 c2 c3 c4 : string) : string :=
  "   " +:+ Py.ljust 20 c1 +:+ " " +:+ Py.rjust 15 c2 +:+ " " +:+ Py.rjust 15 c3
        +:+ " " +:+ Py.rjust 15 c4.

(** ['%-15s %-7s %9s %-12s %10d %10d' % (c1, c2, c3, c4, n5, n6)] *)
Definition summary_template (c1 c2 c3 c4 : string) (n5 n6 : N) : string :=
  Py.ljust 15 c1 +:+ " " +:+ Py.ljust 7 c2 +:+ " " +:+ Py.rjust 9 c3 +:+ " "
    +:+ Py.ljust 12 c4 +:+ " " +:+ Py.rjust 10 (Py.str_N n5) +:+ " " +:+ Py.rjust 10 (Py.str_N n6).

(** [timedelta(seconds=v)]: [None] is not a number. *)
Definition timedelta (v : option Z) : Result Timedelta.t :=
  match v with
  | None => Raise TypeError
  | Some n => Timedelta.of_seconds n
  end.

(** *** [as_dict] *)

Record LocalView := {
  l_capabilities : gmap string flag;
  l_families : gmap string flag;
  l_add_path : gmap string flag;
  l_address : string;
  l_as : N;
  l_id : string;
  l_hold : N;
}.

Record PeerView := {
  p_capabilities : gmap string flag;
  p_families : gmap string flag;
  p_add_path : gmap string flag;
  p_address : string;
  p_as : option N;
  p_id : option string;
  p_hold : option N;
}.

Record Formated := {
  f_state : string;
  f_duration : option Z;
  f_fsm : string;
  f_local : LocalView;
  f_peer : PeerView;
  f_messages_sent : gmap string N;
  f_messages_received : gmap string N;
  f_capabilities : list string;
  f_families : list string;
  f_add_path : gmap string string;
}.

(** The first loop of [as_dict] writes six places of [formated]. *)
Record FamiliesAcc := {
  fa_local : gmap string flag;
  fa_peer : gmap string flag;
  fa_local_add_path : gmap string flag;
  fa_peer_add_path : gmap string flag;
  fa_families : list string;
  fa_add_path : gmap string string;
}.

Definition families_key (a s : string) : string := a +:+ " " +:+ s.

Definition families_step (acc : FamiliesAcc)
    (item : (string * string) * (flag * flag * flag * flag)) : FamiliesAcc :=
  let '((a, s), (l, p, aps, apr)) := item in
  let k := families_key a s in
  {| fa_local := <[k := l]> (fa_local acc);
     fa_peer := <[k := p]> (fa_peer acc);
     fa_local_add_path := <[k := aps]> (fa_local_add_path acc);
     fa_peer_add_path := <[k := apr]> (fa_peer_add_path acc);
     fa_families := if truth l && truth p then fa_families acc ++ [k] else fa_families acc;
     fa_add_path := <[k := _addpath aps apr]> (fa_add_path acc) |}.

Definition families_loop (items : list ((string * string) * (flag * flag * flag * flag)))
    : FamiliesAcc :=
  fold_left families_step items
    {| fa_local := ∅; fa_peer := ∅; fa_local_add_path := ∅; fa_peer_add_path := ∅;
       fa_families := []; fa_add_path := ∅ |}.

(** The second loop writes three. *)
Record CapabilitiesAcc := {
  ca_local : gmap string flag;
  ca_peer : gmap string flag;
  ca_capabilities : list string;
}.

Definition capabilities_step (acc : CapabilitiesAcc) (item : string * (flag * flag))
    : CapabilitiesAcc :=
  let '(k, (l, p)) := item in
  {| ca_local := <[k := l]> (ca_local acc);
     ca_peer := <[k := p]> (ca_peer acc);
     ca_capabilities :=
       if truth l && truth p then ca_capabilities acc ++ [k] else ca_capabilities acc |}.

Definition capabilities_loop (items : list (string * (flag * flag))) : CapabilitiesAcc :=
  fold_left capabilities_step items {| ca_local := ∅; ca_peer := ∅; ca_capabilities := [] |}.

(** The third writes two. *)
Definition messages_step (acc : gmap string N * gmap string N) (item : string * (N * N))
    : gmap string N * gmap string N :=
  let '(k, (s, r)) := item in
  (<[k := s]> (fst acc), <[k := r]> (snd acc)).

Definition messages_loop (items : list (string * (N * N))) : gmap string N * gmap string N :=
  fold_left messages_step items (∅, ∅).

Definition as_dict (answer : Answer) : Formated :=
  let up := truth_seconds (duration answer) in
  let fam := families_loop (families answer) in
  let cap := capabilities_loop (capabilities answer) in
  let msg := messages_loop (messages answer) in
  {| f_state := if up then "up" else "down";
     f_duration := if up then duration answer else down answer;
     f_fsm := state answer;
     f_local :=
       {| l_capabilities := ca_local cap;
          l_families := fa_local fam;
          l_add_path := fa_local_add_path fam;
          l_address := local_address answer;
          l_as := local_as answer;
          l_id := local_id answer;
          l_hold := local_hold answer |};
     f_peer :=
       {| p_capabilities := ca_peer cap;
          p_families := fa_peer fam;
          p_add_path := fa_peer_add_path fam;
          p_address := peer_address answer;
          p_as := peer_as answer;
          p_id := peer_id answer;
          p_hold := peer_hold answer |};
     f_messages_sent := fst msg;
     f_messages_received := snd msg;
     f_capabilities := ca_capabilities cap;
     f_families := fa_families fam;
     f_add_path := fa_add_path fam |}.

(** The key of an item of [answer['families']], and whether its local and
    peer flags are both true; the same for [answer['capabilities']]. *)
Definition family_item_key (item : (string * string) * (flag * flag * flag * flag)) : string :=
  families_key item.1.1 item.1.2.

Definition family_item_both (item : (string * string) * (flag * flag * flag * flag)) : bool :=
  let '(_, (l, p, _, _)) := item in truth l && truth p.

Definition capability_item_both (item : string * (flag * flag)) : bool :=
  let '(_, (l, p)) := item in truth l && truth p.

(** *** [extensive] *)

Definition nl : string := String Py.newline EmptyString.

Definition capability_row (item : string * (flag * flag)) : string :=
  let '(k, (l, p)) := item in
  extensive_kv (k +:+ ":") (_en l) (_en p) "".

(** The row of one family: the tuple is read as [(l, r, apr, aps)]. *)
Definition family_row (item : (string * string) * (flag * flag * flag * flag)) : string :=
  let '((a, s), (l, r, apr, aps)) := item in
  extensive_kv (a +:+ " " +:+ s +:+ ":") (_en l) (_en r) (_addpath aps apr).

Definition message_row (item : string * (N * N)) : string :=
  let '(k, (s, r)) := item in
  extensive_kv (k +:+ ":") (Py.str_N s) (Py.str_N r) "".

Definition extensive_template
    (peer_address local_address state duration as_ id hold capabilities families messages
       : string) : string :=
  "Neighbor " +:+ peer_address +:+ nl
  +:+ nl
  +:+ "    Session                         Local" +:+ nl
  +:+ local_address +:+ nl
  +:+ state +:+ nl
  +:+ duration +:+ nl
  +:+ nl
  +:+ "    Setup                           Local          Remote" +:+ nl
  +:+ as_ +:+ nl
  +:+ id +:+ nl
  +:+ hold +:+ nl
  +:+ nl
  +:+ "    Capability                      Local          Remote" +:+ nl
  +:+ capabilities +:+ nl
  +:+ nl
  +:+ "    Families                        Local          Remote        Add-Path" +:+ nl
  +:+ families +:+ nl
  +:+ nl
  +:+ "    Message Statistic                Sent        Received" +:+ nl
  +:+ messages +:+ nl.

Definition extensive (answer : Answer) : Result string :=
  duration_row ←
    (if truth_seconds (duration answer) then
       d ← timedelta (duration answer);
       mret (extensive_kv "up for" (Timedelta.str d) "" "")
     else
       d ← timedelta (down answer);
       mret (extensive_kv "down for" (Timedelta.str d) "" ""));
  mret (extensive_template
    (peer_address answer)
    (extensive_kv "local" (local_address answer) "" "")
    (extensive_kv "state" (state answer) "" "")
    duration_row
    (extensive_kv "AS" (Py.str_N (local_as answer)) (_pr Py.str_N (peer_as answer)) "")
    (extensive_kv "ID" (local_id answer) (_pr id (peer_id answer)) "")
    (extensive_kv "hold-time" (Py.str_N (local_hold answer)) (_pr Py.str_N (peer_hold answer)) "")
    (Py.join nl (map capability_row (capabilities answer)))
    (Py.join nl (map family_row (families answer)))
    (Py.join nl (map message_row (messages answer)))).

(** *** [summary] *)

Definition summary (answer : Answer) : Result string :=
  updown ←
    (if truth_seconds (duration answer) then
       d ← timedelta (duration answer); mret (Timedelta.str d)
     else mret "down");
  update ← getitem (messages answer) "update";
  mret (summary_template
    (peer_address answer)
    (_pr Py.str_N (peer_as answer))
    updown
    (Py.lower (state answer))
    (fst update)
    (snd update)).

End Neighbor.

(** ** The registered commands *)

(** [exabgp.reactor.api.command.limit], whose source is not part of the
    files embedded here: [extract_neighbors] cuts the neighbor
    descriptions off the front of a line, and raises when it cannot;
    [match_neighbor] tells whether a description selects a peer.  A
    description is a list of strings. *)
Class Limit := {
  extract_neighbors : string → Result (list (list string) * string);
  match_neighbor : list string → string → bool;
}.

(** [json.dumps] on the list that [callback_json] builds. *)
Class Json := {
  dumps : list Neighbor.Formated → string;
}.

(** What the handlers read from the reactor, as of one state of it. *)
Record Reactor := {
  established_peers : list string;
  peers : list string;
  neighbor_name : string → string;
  neighbor_ip : string → string;
  neighbor_cli_data : string → Neighbor.Answer;
  (** [reactor.configuration.neighbors]: each name with [str(neighbor)],
      or [None] where the entry is not a true value. *)
  configuration_neighbors : list (string * option string);
}.

Definition answer_done (service : string) : Eff event unit := tell (AnswerDone service).
Definition answer_error (service : string) : Eff event unit := tell (AnswerError service).
Definition write (service line : string) : Eff event unit := tell (Write service line).
Definition teardown_peer (key : string) (code : N) : Eff event unit := tell (TeardownPeer key code).
Definition log_message (message : string) : Eff event unit := tell (LogMessage message).
Definition schedule (service command : string) (t : task) : Eff event unit :=
  tell (Schedule service command t).

(** *** [teardown] *)

Definition teardown_try `{Py.Interpreter} `{Limit} (reactor : Reactor) (service line : string) : Eff event bool :=
  '(descriptions, line) ← lift (extract_neighbors line);
  if negb (Py.contains_char Py.space line) then
    answer_error service;;
    mret false
  else
    '(_, code) ← lift (unpack2 (Py.split_once Py.space line));
    if negb (Py.isdigit code) then
      answer_error service;;
      mret false
    else
      for_ (established_peers reactor) (λ key,
        for_ descriptions (λ description,
          if match_neighbor description key then
            n ← lift (int code);
            teardown_peer key n;;
            log_message ("teardown scheduled for " +:+ Py.join " " description)
          else mret tt));;
      answer_done service;;
      mret true.

Definition teardown `{Py.Interpreter} `{Limit} (reactor : Reactor) (service line : string) : Eff event bool :=
  try_except (teardown_try reactor service line)
    (λ e, match e with
          | ValueError => Some (answer_error service;; mret false)
          | IndexError => Some (answer_error service;; mret false)
          | _ => None
          end).

(** *** [show neighbor] *)

Definition gen_write (service line : string) : Eff step unit := tell (Wrote service line).
Definition gen_yield : Eff step unit := tell Yielded.
Definition gen_answer_done (service : string) : Eff step unit := tell (Answered service).

Definition callback_configuration (reactor : Reactor) (service limit : string) : task :=
  for_ (configuration_neighbors reactor) (λ '(neighbor_name, neighbor),
    match neighbor with
    | None => mret tt
    | Some text =>
        if negb (bool_decide (limit = "")) && negb (Py.contains limit neighbor_name) then mret tt
        else
          for_ (Py.split_char Py.newline text) (λ line,
            gen_write service line;;
            gen_yield)
    end);;
  gen_answer_done service.

Definition callback_json `{Json} (reactor : Reactor) (service : string) : task :=
  let p := map (λ peer_name, Neighbor.as_dict (neighbor_cli_data reactor peer_name))
               (peers reactor) in
  for_ (Py.split_char Py.newline (dumps p)) (λ line,
    gen_write service line;;
    gen_yield);;
  gen_answer_done service.

Definition callback_extensive (reactor : Reactor) (service limit : string) : task :=
  for_ (peers reactor) (λ peer_name,
    if negb (bool_decide (limit = ""))
       && negb (Py.contains limit (neighbor_name reactor peer_name)) then mret tt
    else
      text ← lift (Neighbor.extensive (neighbor_cli_data reactor peer_name));
      for_ (Py.split_char Py.newline text) (λ line,
        gen_write service line;;
        gen_yield));;
  gen_answer_done service.

Definition callback_summary (reactor : Reactor) (service limit : string) : task :=
  gen_write service Neighbor.summary_header;;
  for_ (peers reactor) (λ peer_name,
    if negb (bool_decide (limit = ""))
       && negb (bool_decide (limit = neighbor_ip reactor peer_name)) then mret tt
    else
      text ← lift (Neighbor.summary (neighbor_cli_data reactor peer_name));
      for_ (Py.split_char Py.newline text) (λ line,
        gen_write service line;;
        gen_yield));;
  gen_answer_done service.

(** The words of the command once the output modes, each at its first
    occurrence, are taken out. *)
Definition remaining_words (words : list string) : list string :=
  let extensive := bool_decide ("extensive" ∈ words) in
  let configuration := bool_decide ("configuration" ∈ words) in
  let summary := bool_decide ("summary" ∈ words) in
  let jason := bool_decide ("json" ∈ words) in
  let words := if summary then remove_first "summary" words else words in
  let words := if extensive then remove_first "extensive" words else words in
  let words := if configuration then remove_first "configuration" words else words in
  let words := if jason then remove_first "json" words else words in
  words.

Definition show_neighbor `{Json} (reactor : Reactor) (service command : string)
    : Eff event (option bool) :=
  let words := Py.split command in
  let extensive := bool_decide ("extensive" ∈ words) in
  let configuration := bool_decide ("configuration" ∈ words) in
  let summary := bool_decide ("summary" ∈ words) in
  let jason := bool_decide ("json" ∈ words) in
  let words := remaining_words words in
  last_word ← lift (index_last words);
  let limit := if bool_decide (last_word ≠ "neighbor") then last_word else "" in
  if jason then
    schedule service command (callback_json reactor service);;
    mret (Some true)
  else if summary then
    schedule service command (callback_summary reactor service limit);;
    mret (Some true)
  else if extensive then
    schedule service command (callback_extensive reactor service limit);;
    mret (Some true)
  else if configuration then
    schedule service command (callback_configuration reactor service limit);;
    mret (Some true)
  else
    write service "please specify summary, extensive or configuration";;
    write service "you can filter by peer ip address adding it after the word neighbor";;
    answer_done service;;
    mret None.

(** ** [class SectionFamily]: the family section of a configuration *)

Module Family.

(** [exabgp.protocol.family], whose source is not part of the files
    embedded here: [AFI.value] and [SAFI.value] give the code of a name,
    and an [AFI] or [SAFI] object is its code; [AFI.implemented_safi]
    lists the names of the SAFI implemented for an AFI name. *)
Class Protocol := {
  AFI_value : string → N;
  SAFI_value : string → N;
  implemented_safi : string → list string;
}.

(** [Section._check_duplicate], inherited from
    [exabgp.configuration.engine.section], not part of the files embedded
    here either: it reads the section and raises [RaisedFamily] with a
    message of its own, or returns. *)
Class Engine := {
  _check_duplicate : gmap N (list N) → option string;
}.

(** [self.content]: the SAFI recorded so far under each AFI. *)
Abbreviation Content := (gmap N (list N)).

Definition unimplemented_message (afi_name safi_name : string) : string :=
  "the family pair afi/safi " +:+ afi_name +:+ "/" +:+ safi_name +:+ " is unimplemented".

Definition already_defined_message : string :=
  "afi/safi pair already defined in this family".

(** The loop of [_add].  [known] is the list that [self.content] holds
    under the AFI: [known.append] changes it in place, so that what was
    appended before a [raise] stays in [self.content]. *)
Fixpoint _add_loop `{Protocol} (afi_name : string) (safi_names : list string)
    : State (list N) unit :=
  match safi_names with
  | [] => mret tt
  | safi_name :: safi_names' =>
      (if bool_decide (safi_name ∉ implemented_safi afi_name) then
         raise (RaisedFamily (unimplemented_message afi_name safi_name))
       else
         let safi := SAFI_value safi_name in
         known ← get;
         if bool_decide (safi ∈ known) then
           raise (RaisedFamily already_defined_message)
         else put (known ++ [safi]));;
      _add_loop afi_name safi_names'
  end.

Definition _add `{Protocol} `{Engine} (afi_name : string) (safi_names : list string)
    : State Content unit :=
  mkState (λ content,
    match _check_duplicate content with
    | Some message => (content, Raise (RaisedFamily message))
    | None =>
        (* known = self.content.setdefault(AFI(AFI.value(afi_name)),[]) *)
        let afi := AFI_value afi_name in
        let known := default [] (content !! afi) in
        let '(known', r) := run (_add_loop afi_name safi_names) known in
        (<[afi := known']> content, r)
    end).

Definition ipv4 `{Protocol} `{Engine} (tokens : list string) : State Content unit :=
  _add "ipv4" tokens.

Definition ipv6 `{Protocol} `{Engine} (tokens : list string) : State Content unit :=
  _add "ipv6" tokens.

Definition l2vpn `{Protocol} `{Engine} (tokens : list string) : State Content unit :=
  _add "l2vpn" tokens.

(** [all] hands [_add] one SAFI name where [_add] loops over its third
    argument: the loop runs over the characters of the name. *)
Definition all `{Protocol} `{Engine} : State Content unit :=
  for_each ["ipv4"; "ipv6"; "l2vpn"] (λ afi_name,
    for_each (implemented_safi afi_name) (λ safi_name,
      _add afi_name (iter_str safi_name))).

(** The pairs a declaration records. *)
Definition recorded (content : Content) (afi safi : N) : Prop :=
  ∃ known, content !! afi = Some known ∧ safi ∈ known.

(** The implemented pairs as the grammar of the section, [syntax_family],
    lists them. *)
Definition syntax_implemented_safi (afi_name : string) : list string :=
  if bool_decide (afi_name = "ipv4") then
    ["unicast"; "multicast"; "nlri-mpls"; "mpls-vpn"; "flow"; "flow-vpn"]
  else if bool_decide (afi_name = "ipv6") then
    ["unicast"; "flow"; "flow-vpn"]
  else if bool_decide (afi_name = "l2vpn") then
    ["vpls"]
  else [].

(** The protocol tables with that list, whatever the codes are. *)
Definition syntax_protocol (afi_value safi_value : string → N) : Protocol := {|
  AFI_value := afi_value;
  SAFI_value := safi_value;
  implemented_safi := syntax_implemented_safi;
|}.

End Family.

(** ** [etc/processes/syslog-1.py]: lines of standard input to syslog *)

Module Syslog.

(** What the script reads of the clock and of its process: the result of
    the n-th call of [time.strftime('%a, %d %b %Y %H:%M:%S',
    time.localtime())], and [os.getpid()]. *)
Class Os := {
  strftime : nat → string;
  getpid : Z;
}.

(** ["%s %-8s %-6d %s" % (now, level, os.getpid(), message)], [now] being
    the reading of the clock numbered [reading]. *)
Definition _prefixed `{Os} (reading : nat) (level message : string) : string :=
  strftime reading +:+ " " +:+ Py.ljust 8 level +:+ " " +:+ Py.ljust 6 (Py.str_Z getpid)
    +:+ " " +:+ message.

(** A run of the script: the messages given to [syslog.syslog] at
    [LOG_ALERT], in order, and the number of calls of [readline]. *)
Record Run := {
  alerts : list string;
  readlines : nat;
}.

(** The loop of the script.  [stdin] lists what [readline] returns before
    the end of the input, after which it returns the empty string for
    ever; [counter] is the counter of the script and [reading] the number
    of readings of the clock so far.  A line that is logged reads the
    clock twice, the second time in [_prefixed].  A [KeyboardInterrupt]
    is not modelled. *)
Fixpoint loop `{Os} (counter reading : nat) (stdin : list string) : Run :=
  match stdin with
  | [] => {| alerts := []; readlines := 1 `max` (101 - counter) |}
  | raw :: stdin' =>
      let line := Py.strip raw in
      if bool_decide (line = "") then
        let counter := S counter in
        if (100 <? counter)%nat then {| alerts := []; readlines := 1 |}
        else
          let rest := loop counter reading stdin' in
          {| alerts := alerts rest; readlines := S (readlines rest) |}
      else
        let rest := loop 0 (reading + 2) stdin' in
        {| alerts := _prefixed (S reading) "INFO" line :: alerts rest;
           readlines := S (readlines rest) |}
  end.

Definition main `{Os} (stdin : list string) : Run := loop 0 0 stdin.

(** A line of blanks only, as the loop sees it. *)
Definition blank (raw : string) : Prop := Py.strip raw = "".

(** The messages for the lines [lines], the clock read twice for each. *)
Fixpoint stamped `{Os} (reading : nat) (lines : list string) : list string :=
  match lines with
  | [] => []
  | line :: lines' => _prefixed (S reading) "INFO" line :: stamped (reading + 2) lines'
  end.

(** No more than 100 blank lines in a row, [counter] of them just read. *)
Fixpoint short_blank_runs (counter : nat) (stdin : list string) : bool :=
  match stdin with
  | [] => true
  | raw :: stdin' =>
      if bool_decide (blank raw) then (S counter <=? 100)%nat && short_blank_runs (S counter) stdin'
      else short_blank_runs 0 stdin'
  end.

End Syslog.

(** ** The words of the specification *)

Module Spec.

Definition chars (s : string) : list ascii := list_ascii_of_string s.

(** [code] is the space-separated trailing segment of [line]: what
    follows the first space. *)
Definition code_segment (line code : string) : Prop :=
  ∃ verb, line = verb +:+ String Py.space code ∧ Py.space ∉ chars verb.

Definition has_code_segment (line : string) : Prop := ∃ code, code_segment line code.

(** [code] is all decimal digits, [^[0-9]+$]. *)
Definition decimal_digit (a : ascii) : Prop := (48 ≤ nat_of_ascii a ≤ 57)%nat.

Definition decimal (code : string) : Prop :=
  code ≠ EmptyString ∧ Forall decimal_digit (chars code).

(** A digit for [str.isdigit]: a decimal digit, or one of the
    superscripts two, three and one.  [code] passes [isdigit] when it has
    a character at least and digits only. *)
Definition digit (a : ascii) : Prop :=
  decimal_digit a ∨ nat_of_ascii a = 178%nat ∨ nat_of_ascii a = 179%nat
  ∨ nat_of_ascii a = 185%nat.

Definition digits (code : string) : Prop :=
  code ≠ EmptyString ∧ Forall digit (chars code).

(** The number that a decimal numeral writes: each digit times the power
    of ten of its place. *)
Definition digit_value (a : ascii) : N := N.of_nat (nat_of_ascii a - 48).

Fixpoint value_of (l : list ascii) : N :=
  match l with
  | [] => 0
  | a :: l' => digit_value a * 10 ^ N.of_nat (length l') + value_of l'
  end.

Definition value (code : string) : N := value_of (chars code).

(** [code] has no more digits than the interpreter converts, and [int]
    converts it: it is decimal and within the limit. *)
Definition within_limit `{Py.Interpreter} (code : string) : Prop :=
  Py.int_max_str_digits = 0%nat ∨ (String.length code ≤ Py.int_max_str_digits)%nat.

Definition converts `{Py.Interpreter} (code : string) : Prop :=
  decimal code ∧ within_limit code.

(** [t] is [s] in lower case: the capitals, A to Z and those of Latin-1,
    are replaced by their small letters, place by place, and the other
    characters stay. *)
Definition capitals : list ascii :=
  chars "ABCDEFGHIJKLMNOPQRSTUVWXYZ" ++ map ascii_of_nat (seq 192 23 ++ seq 216 7).

Definition smalls : list ascii :=
  chars "abcdefghijklmnopqrstuvwxyz" ++ map ascii_of_nat (seq 224 23 ++ seq 248 7).

Definition lower_of (a b : ascii) : Prop :=
  elem_of (a, b) (zip capitals smalls) ∨ (¬ elem_of a capitals ∧ b = a).

Definition lowercase (s t : string) : Prop := Forall2 lower_of (chars s) (chars t).


(** [needle] occurs in [hay]. *)
Definition substring (needle hay : string) : Prop :=
  ∃ before after, hay = before +:+ needle +:+ after.

(** The output modes of [show neighbor], by precedence. *)
Definition modes : list string := ["json"; "summary"; "extensive"; "configuration"].

End Spec.

(** The (peer, description) pairs that a teardown reaches, in the order
    the handler meets them. *)
Definition matching `{Limit} (reactor : Reactor) (descriptions : list (list string))
    : list (string * list string) :=
  flat_map (λ key,
    flat_map (λ description,
      if match_neighbor description key then [(key, description)] else [])
      descriptions)
    (established_peers reactor).

(** What the handler does for one such pair. *)
Definition teardown_events (n : N) (pair : string * list string) : list event :=
  [TeardownPeer pair.1 n;
   LogMessage ("teardown scheduled for " +:+ Py.join " " pair.2)].

(** The lines that the teardown command refuses: the description does
    not resolve (a [ValueError] or an [IndexError] out of
    [extract_neighbors]), or what is left has no code segment, or the
    code does not pass [isdigit], or it passes but [int] does not convert
    it and some established peer matches a description. *)
Definition rejected `{Py.Interpreter} `{Limit} (reactor : Reactor) (line : string) : Prop :=
  match extract_neighbors line with
  | Raise e => e = ValueError ∨ e = IndexError
  | Ok (descriptions, rest) =>
      ¬ Spec.has_code_segment rest
      ∨ ∃ code, Spec.code_segment rest code
          ∧ (¬ Spec.digits code
             ∨ (¬ Spec.converts code ∧ matching reactor descriptions ≠ []))
  end.

Definition is_teardown_peer (e : event) : bool :=
  match e with TeardownPeer _ _ => true | _ => false end.

Definition is_log_message (e : event) : bool :=
  match e with LogMessage _ => true | _ => false end.

(** What [callback_summary] and [callback_extensive] do for one peer they
    do not skip. *)
Definition summary_rows (reactor : Reactor) (service peer_name : string) : Eff step unit :=
  text ← lift (Neighbor.summary (neighbor_cli_data reactor peer_name));
  for_ (Py.split_char Py.newline text) (λ line,
    gen_write service line;;
    gen_yield).

Definition extensive_block (reactor : Reactor) (service peer_name : string) : Eff step unit :=
  text ← lift (Neighbor.extensive (neighbor_cli_data reactor peer_name));
  for_ (Py.split_char Py.newline text) (λ line,
    gen_write service line;;
    gen_yield).

(** The filter that [show_neighbor] computes from the words of a command. *)
Definition limit_of (words : list string) : string :=
  match last (remaining_words words) with
  | Some last_word => if bool_decide (last_word ≠ "neighbor") then last_word else ""
  | None => ""
  end.

(** The mode that the precedence json > summary > extensive >
    configuration selects among the words, and the task of each mode. *)
Definition selected (words : list string) : option string :=
  List.find (λ mode, bool_decide (mode ∈ words)) Spec.modes.

Definition mode_task `{Json} (reactor : Reactor) (service limit mode : string) : task :=
  if bool_decide (mode = "json") then callback_json reactor service
  else if bool_decide (mode = "summary") then callback_summary reactor service limit
  else if bool_decide (mode = "extensive") then callback_extensive reactor service limit
  else callback_configuration reactor service limit.

(** No output mode is written twice among the words. *)
Definition modes_once (words : list string) : Prop :=
  ∀ mode, mode ∈ Spec.modes → (count_occ string_dec words mode ≤ 1)%nat.

(** The steps of a task that writes [lines], one line a step. *)
Definition line_steps (service : string) (lines : list string) : list step :=
  flat_map (λ line, [Wrote service line; Yielded]) lines.

(** The answers among the events of a handler. *)
Definition is_answer (e : event) : bool :=
  match e with
  | AnswerDone _ | AnswerError _ => true
  | _ => false
  end.

Definition is_schedule (e : event) : bool :=
  match e with
  | Schedule _ _ _ => true
  | _ => false
  end.

(** ** Values for the examples *)

Module Example.

(** A stand-in for [limit.py]: the second word of the line is the one
    description, a line of fewer than two words does not resolve, and a
    description selects the peer it names, or every peer when it is [*]. *)
Definition example_extract (line : string) : Result (list (list string) * string) :=
  match Py.split line with
  | verb :: description :: rest => Ok ([[description]], Py.join " " (verb :: rest))
  | _ => Raise ValueError
  end.

Definition limit : Limit := {|
  extract_neighbors := example_extract;
  match_neighbor description key := bool_decide (description = ["*"] ∨ description = [key]);
|}.

Definition json : Json := {|
  dumps p := "[" +:+ Py.join ", " (map (λ f, "{state: " +:+ Neighbor.f_state f +:+ "}") p) +:+ "]";
|}.

Definition answer (peer_name : string) (seconds : option Z) : Neighbor.Answer := {|
  Neighbor.local_address := "10.0.0.254";
  Neighbor.peer_address := peer_name;
  Neighbor.local_as := 65000;
  Neighbor.peer_as := Some 65001%N;
  Neighbor.local_id := "10.0.0.254";
  Neighbor.peer_id := None;
  Neighbor.local_hold := 180;
  Neighbor.peer_hold := Some 90%N;
  Neighbor.state := "ESTABLISHED";
  Neighbor.duration := seconds;
  Neighbor.down := None;
  Neighbor.capabilities :=
    [("asn4", (Some true, Some true)); ("route-refresh", (Some true, Some false))];
  Neighbor.families :=
    [(("ipv4", "unicast"), (Some true, Some true, Some true, Some false));
     (("ipv6", "unicast"), (Some true, None, None, None))];
  Neighbor.messages := [("open", (1, 1)); ("update", (12, 3456))]%N;
|}.

Definition reactor : Reactor := {|
  established_peers := ["10.0.0.1"; "10.0.0.2"];
  peers := ["10.0.0.1"; "10.0.0.2"; "10.0.0.3"];
  neighbor_name peer_name := "neighbor " +:+ peer_name +:+ " local-as 65000";
  neighbor_ip peer_name := peer_name;
  neighbor_cli_data peer_name := answer peer_name (Some 3661%Z);
  configuration_neighbors := [];
|}.

(** The codes of the names of the grammar, as IANA assigns them. *)
Definition afi_value (afi_name : string) : N :=
  if bool_decide (afi_name = "ipv4") then 1
  else if bool_decide (afi_name = "ipv6") then 2
  else if bool_decide (afi_name = "l2vpn") then 25
  else 0.

Definition safi_value (safi_name : string) : N :=
  if bool_decide (safi_name = "unicast") then 1
  else if bool_decide (safi_name = "multicast") then 2
  else if bool_decide (safi_name = "nlri-mpls") then 4
  else if bool_decide (safi_name = "vpls") then 65
  else if bool_decide (safi_name = "mpls-vpn") then 128
  else if bool_decide (safi_name = "flow") then 133
  else if bool_decide (safi_name = "flow-vpn") then 134
  else 0.

Definition protocol : Family.Protocol := Family.syntax_protocol afi_value safi_value.

(** An inherited check that lets every call through. *)
Definition engine : Family.Engine := {| Family._check_duplicate _ := None |}.

(** The interpreter with its limit as Python sets it, a code of one digit
    more than the limit, and the superscript two. *)
Definition interpreter : Py.Interpreter := {| Py.int_max_str_digits := 4300 |}.

Definition long_code : string := string_of_list_ascii (replicate 4301 "1"%char).

Definition superscript_two : string := String (ascii_of_nat 178) EmptyString.

(** A clock that stands still and a process number. *)
Definition os : Syslog.Os := {|
  Syslog.strftime _ := "Tue, 03 Nov 2026 08:39:00";
  Syslog.getpid := 4242;
|}.

End Example.

(** * Properties *)

(** ** The built-ins *)

Section PyFacts.

Lemma append_nil_l (s : string) : EmptyString +:+ s = s.
Proof. reflexivity. Qed.

Lemma append_cons a (s t : string) : String a s +:+ t = String a (s +:+ t).
Proof. reflexivity. Qed.

Lemma append_nil_r (s : string) : s +:+ EmptyString = s.
Proof. induction s as [|a s IH]; [done | by rewrite append_cons, IH]. Qed.

Lemma append_assoc (s1 s2 s3 : string) : (s1 +:+ s2) +:+ s3 = s1 +:+ (s2 +:+ s3).
Proof. induction s1 as [|a s1 IH]; [done | by rewrite !append_cons, IH]. Qed.

Lemma contains_char_chars c s : Py.contains_char c s = true ↔ c ∈ Spec.chars s.
Proof.
  induction s as [|a s IH]; simpl.
  - split; [discriminate | by intros ?%elem_of_nil].
  - rewrite elem_of_cons. destruct (decide (a = c)) as [->|Hne].
    + split; auto.
    + rewrite IH. split; [by right | intros [?|?]; congruence].
Qed.

Lemma contains_char_false c s : Py.contains_char c s = false ↔ c ∉ Spec.chars s.
Proof.
  rewrite <- contains_char_chars. destruct (Py.contains_char c s); split; done.
Qed.

(** Where the line has the separator, [split(c, 1)] cuts at its first
    occurrence and gives two parts. *)
Lemma split_once_cut c s :
  Py.contains_char c s = true →
  ∃ verb code, Py.split_once c s = [verb; code] ∧ s = verb +:+ String c code
               ∧ c ∉ Spec.chars verb.
Proof.
  induction s as [|a s IH]; simpl; [discriminate|].
  destruct (decide (a = c)) as [->|Hne]; intros Hc.
  - exists EmptyString, s. split_and!; [done | done | apply not_elem_of_nil].
  - destruct (IH Hc) as (verb & code & Hs & Heq & Hv).
    exists (String a verb), code. rewrite Hs, append_cons, <- Heq. split_and!; [done | done |].
    unfold Spec.chars; simpl. rewrite not_elem_of_cons. split; [congruence | done].
Qed.

Lemma cut_contains c verb code : Py.contains_char c (verb +:+ String c code) = true.
Proof.
  induction verb as [|a verb IH]; [rewrite append_nil_l | rewrite append_cons]; simpl.
  - by rewrite decide_True.
  - destruct (decide (a = c)); done.
Qed.

(** The cut at the first separator is the only one. *)
Lemma cut_unique c v1 c1 v2 c2 :
  v1 +:+ String c c1 = v2 +:+ String c c2 →
  c ∉ Spec.chars v1 → c ∉ Spec.chars v2 → v1 = v2 ∧ c1 = c2.
Proof.
  revert v2. induction v1 as [|a v1 IH]; intros [|b v2];
    rewrite ?append_nil_l, ?append_cons; unfold Spec.chars; simpl; intros Heq H1 H2.
  - by injection Heq.
  - injection Heq as <- _. rewrite not_elem_of_cons in H2. by destruct H2.
  - injection Heq as -> _. rewrite not_elem_of_cons in H1. by destruct H1.
  - injection Heq as -> Heq. rewrite not_elem_of_cons in H1, H2.
    destruct (IH v2 Heq) as [-> ->]; tauto.
Qed.

Lemma code_segment_split line code :
  Spec.code_segment line code →
  Py.contains_char Py.space line = true
  ∧ ∃ verb, Py.split_once Py.space line = [verb; code].
Proof.
  intros (verb & -> & Hv). split; [apply cut_contains|].
  destruct (split_once_cut Py.space _ (cut_contains Py.space verb code))
    as (verb' & code' & Hs & Heq & Hv').
  destruct (cut_unique _ _ _ _ _ Heq Hv Hv') as [<- <-]. by exists verb.
Qed.

Lemma no_code_segment line :
  Py.contains_char Py.space line = false ↔ ¬ Spec.has_code_segment line.
Proof.
  split.
  - intros Hc (code & verb & -> & _). by rewrite cut_contains in Hc.
  - intros Hn. destruct (Py.contains_char Py.space line) eqn:Hc; [|done].
    destruct (split_once_cut _ _ Hc) as (verb & code & _ & -> & Hv).
    destruct Hn. by exists code, verb.
Qed.

Lemma is_decimal_spec a : Py.is_decimal a = true ↔ Spec.decimal_digit a.
Proof.
  unfold Spec.decimal_digit.
  destruct a as [[] [] [] [] [] [] [] []]; vm_compute; split; (discriminate || lia || done).
Qed.

(** [isdigit] takes a character for a digit exactly when it is a decimal
    digit or one of the three superscripts. *)
Lemma is_digit_spec a : Py.is_digit a = true ↔ Spec.digit a.
Proof.
  unfold Spec.digit, Spec.decimal_digit.
  destruct a as [[] [] [] [] [] [] [] []]; vm_compute; split; (discriminate || lia || done).
Qed.


(** The second parts of the pairs of a list that have a given first part. *)
Lemma pair_in_zip_snd {A B} `{EqDecision A} (a : A) (b : B) (l : list (A * B)) :
  (a, b) ∈ l → b ∈ (List.filter (λ p, bool_decide (p.1 = a)) l).*2.
Proof.
  induction l as [|[a' b'] l IH]; [by intros ?%elem_of_nil|].
  rewrite elem_of_cons. simpl. intros [[= <- <-]|Hin].
  - rewrite bool_decide_eq_true_2 by done. simpl. left.
  - destruct (bool_decide (a' = a)); simpl; [right|]; by apply IH.
Qed.

(** [lower] gives each character its small letter and leaves the characters
    that are not capitals. *)
Lemma lower_char_spec a b : Spec.lower_of a b ↔ b = Py.lower_char a.
Proof.
  unfold Spec.lower_of. split.
  - intros [Hin|[Hn ->]].
    + apply pair_in_zip_snd in Hin.
      destruct a as [[] [] [] [] [] [] [] []]; vm_compute in Hin;
        first [ by apply elem_of_nil in Hin
              | by apply list_elem_of_singleton in Hin ].
    + destruct a as [[] [] [] [] [] [] [] []]; try reflexivity;
        exfalso; apply Hn; refine (bool_decide_unpack _ _); vm_compute; exact I.
  - intros ->.
    destruct a as [[] [] [] [] [] [] [] []];
      first [ left; refine (bool_decide_unpack _ _); vm_compute; exact I
            | right; split; [refine (bool_decide_unpack _ _); vm_compute; exact I | reflexivity] ].
Qed.

Lemma lower_spec s t : Spec.lowercase s t ↔ t = Py.lower s.
Proof.
  unfold Spec.lowercase, Spec.chars. revert t.
  induction s as [|a s IH]; intros [|b t]; simpl.
  - split; [done | constructor].
  - split; [by intros ?%Forall2_nil_cons_inv | done].
  - split; [by intros ?%Forall2_cons_nil_inv | done].
  - rewrite Forall2_cons, lower_char_spec, IH. split; [by intros [-> ->] | by intros [= -> ->]].
Qed.

Lemma all_digits_spec s : Py.all_digits s = true ↔ Forall Spec.digit (Spec.chars s).
Proof.
  induction s as [|a s IH]; unfold Spec.chars; simpl.
  - split; [constructor | done].
  - rewrite andb_true_iff, Forall_cons, is_digit_spec, IH. done.
Qed.

Lemma isdigit_spec s : Py.isdigit s = true ↔ Spec.digits s.
Proof.
  unfold Spec.digits. destruct s as [|a s].
  - split; [discriminate | by intros [? _]].
  - change (Py.isdigit (String a s)) with (Py.all_digits (String a s)).
    rewrite all_digits_spec. split; [by split | by intros [_ ?]].
Qed.

(** What is all decimal digits passes [isdigit]. *)
Lemma decimal_digits s : Spec.decimal s → Spec.digits s.
Proof.
  intros [Hne Hd]. split; [done|]. eapply Forall_impl; [exact Hd|]. intros a Ha. by left.
Qed.

Lemma is_nat_decimal a :
  Spec.decimal_digit a → Ascii.is_nat a = Some (N.to_nat (Spec.digit_value a)).
Proof.
  unfold Spec.decimal_digit, Spec.digit_value.
  destruct a as [[] [] [] [] [] [] [] []]; vm_compute; (reflexivity || lia).
Qed.

Lemma is_nat_not_decimal a : ¬ Spec.decimal_digit a → Ascii.is_nat a = None.
Proof.
  rewrite <- is_decimal_spec. unfold Py.is_decimal.
  destruct (Ascii.is_nat a); [by intros [] | done].
Qed.

Lemma length_chars s : length (Spec.chars s) = String.length s.
Proof. induction s as [|a s IH]; unfold Spec.chars in *; simpl; [done | by rewrite IH]. Qed.

(** Reading the digits from the left gives the number that the places
    give. *)
Lemma int_from_value s acc :
  Forall Spec.decimal_digit (Spec.chars s) →
  Py.int_from acc s = Some (acc * 10 ^ N.of_nat (String.length s) + Spec.value s)%N.
Proof.
  revert acc. induction s as [|a s IH]; intros acc; unfold Spec.value, Spec.chars in *; simpl.
  - intros _. f_equal. lia.
  - intros [Ha Hs]%Forall_cons. rewrite (is_nat_decimal a Ha), N2Nat.id, (IH _ Hs).
    f_equal. fold (Spec.chars s). rewrite length_chars.
    rewrite Nat2N.inj_succ, N.pow_succ_r'. lia.
Qed.

Lemma int_from_not_decimal s acc :
  ¬ Forall Spec.decimal_digit (Spec.chars s) → Py.int_from acc s = None.
Proof.
  revert acc. induction s as [|a s IH]; intros acc; unfold Spec.chars in *; simpl.
  - intros Hn. destruct Hn. constructor.
  - intros Hn. destruct (Ascii.is_nat a) as [d|] eqn:Ha; [|done].
    apply IH. intros Hs. apply Hn. apply Forall_cons. split; [|done].
    apply is_decimal_spec. unfold Py.is_decimal. by rewrite Ha.
Qed.

Section Int.

Context `{Py.Interpreter}.

Lemma limit_test s :
  negb (Py.int_max_str_digits =? 0)%nat && (Py.int_max_str_digits <? String.length s)%nat = false
  ↔ Spec.within_limit s.
Proof.
  unfold Spec.within_limit.
  destruct (Nat.eqb_spec Py.int_max_str_digits 0) as [Hz|Hz]; simpl.
  - split; [by left | done].
  - destruct (Nat.ltb_spec Py.int_max_str_digits (String.length s)); split; try done;
      (lia || (intros [?|?]; lia) || (intros _; right; lia)).
Qed.

(** [int] converts the decimal numerals within the limit, to the number
    they write, and raises [ValueError] on everything else. *)
Lemma int_converts s : Spec.converts s → int s = Ok (Spec.value s).
Proof.
  intros [[Hne Hd] Hl]. apply limit_test in Hl. unfold int, Py.int.
  destruct s as [|a s]; [done|]. rewrite Hl.
  by rewrite (int_from_value _ _ Hd).
Qed.

Lemma int_refuses s : ¬ Spec.converts s → int s = Raise ValueError.
Proof.
  intros Hn. unfold int, Py.int. destruct s as [|a s]; [done|].
  destruct (negb _ && _) eqn:Hl; [done|]. apply limit_test in Hl.
  rewrite int_from_not_decimal; [done|]. intros Hd. apply Hn. by split.
Qed.

Lemma int_raises s e : int s = Raise e → e = ValueError.
Proof. unfold int. destruct (Py.int s); [done | by intros [= <-]]. Qed.

End Int.

End PyFacts.

(** The blanks and the capitals beyond ASCII: a no-break space and a file
    separator cut words, [strip] takes them at both ends, and [lower]
    lowers E acute and leaves the multiplication sign. *)
Example split_latin1_blanks :
  Py.split (String "a" (String (ascii_of_nat 160) (String "b" (String (ascii_of_nat 28) "c"))))
  = ["a"; "b"; "c"].
Proof. reflexivity. Qed.

Example strip_latin1_blanks :
  Py.strip (String (ascii_of_nat 31) (String (ascii_of_nat 160)
              (" x " +:+ String (ascii_of_nat 133) (String (ascii_of_nat 28) ""))))
  = "x".
Proof. reflexivity. Qed.

Example lower_latin1 :
  Py.lower (String (ascii_of_nat 201) (String "A" (String (ascii_of_nat 215) "")))
  = String (ascii_of_nat 233) (String "a" (String (ascii_of_nat 215) "")).
Proof. reflexivity. Qed.

(** ** The effect log *)

Section EffFacts.

Context {E : Type}.

Lemma bind_ok {A B} (c : Eff E A) (f : A → Eff E B) a :
  outcome c = Ok a → c ≫= f = mkEff (log c ++ log (f a)) (outcome (f a)).
Proof. intros Hc. unfold mbind, eff_bind. by rewrite Hc. Qed.

Lemma bind_raise {A B} (c : Eff E A) (f : A → Eff E B) e :
  outcome c = Raise e → c ≫= f = mkEff (log c) (Raise e).
Proof. intros Hc. unfold mbind, eff_bind. by rewrite Hc. Qed.

Lemma eff_eta {A} (c : Eff E A) : mkEff (log c) (outcome c) = c.
Proof. by destruct c. Qed.

Lemma lift_ok_bind {A B} (a : A) (f : A → Eff E B) : lift (Ok a) ≫= f = f a.
Proof. rewrite (bind_ok _ _ a) by done. apply eff_eta. Qed.

Lemma lift_raise_bind {A B} e (f : A → Eff E B) : lift (Raise e) ≫= f = mkEff [] (Raise e).
Proof. by rewrite (bind_raise _ _ e). Qed.

Lemma tell_bind {B} (x : E) (f : unit → Eff E B) :
  tell x ≫= f = mkEff (x :: log (f tt)) (outcome (f tt)).
Proof. by rewrite (bind_ok _ _ tt). Qed.

(** A loop whose body never raises runs the body on every element, in
    order. *)
Lemma for_ok {A} (l : list A) (body : A → Eff E unit) :
  (∀ x, x ∈ l → outcome (body x) = Ok tt) →
  for_ l body = mkEff (flat_map (λ x, log (body x)) l) (Ok tt).
Proof.
  induction l as [|x l IH]; intros Hb; [done|]. simpl.
  rewrite (bind_ok _ _ tt) by (apply Hb; left).
  rewrite IH by (intros y Hy; apply Hb; by right). done.
Qed.

End EffFacts.

Lemma flat_map_flat_map {A B C} (f : A → list C) (g : B → list C) (h : A → list B) l :
  (∀ x, f x = flat_map g (h x)) → flat_map f l = flat_map g (flat_map h l).
Proof.
  intros Hf. induction l as [|x l IH]; [done|].
  simpl. by rewrite flat_map_app, IH, Hf.
Qed.


(** ** [teardown] *)

Section Teardown.

Context `{Py.Interpreter} `{Limit}.

(** The two loops of the handler, once the code is known to be a number. *)
Lemma teardown_loops reactor descriptions code n :
  int code = Ok n →
  for_ (established_peers reactor) (λ key,
    for_ descriptions (λ description,
      if match_neighbor description key then
        n ← lift (int code);
        teardown_peer key n;;
        log_message ("teardown scheduled for " +:+ Py.join " " description)
      else mret tt))
  = mkEff (flat_map (teardown_events n) (matching reactor descriptions)) (Ok tt).
Proof.
  intros Hn. unfold matching.
  assert (Hin : ∀ key,
    for_ descriptions (λ description,
      if match_neighbor description key then
        n ← lift (E := event) (int code);
        teardown_peer key n;;
        log_message ("teardown scheduled for " +:+ Py.join " " description)
      else mret tt)
    = mkEff (flat_map (teardown_events n)
               (flat_map (λ description,
                  if match_neighbor description key then [(key, description)] else [])
                  descriptions)) (Ok tt)).
  { intros key. rewrite for_ok.
    - f_equal. apply flat_map_flat_map. intros d.
      destruct (match_neighbor d key); [|done]. by rewrite Hn.
    - intros d _. destruct (match_neighbor d key); [|done]. by rewrite Hn. }
  rewrite for_ok.
  - f_equal. apply flat_map_flat_map. intros k. by rewrite Hin.
  - intros k _. by rewrite Hin.
Qed.

(** A loop whose bodies do nothing, some of them raising: it raises at
    the first that does. *)
Lemma for_first_raise {A} (hit : A → bool) e (body : A → Eff event unit) l :
  (∀ x, body x = if hit x then mkEff [] (Raise e) else mkEff [] (Ok tt)) →
  for_ l body = if existsb hit l then mkEff [] (Raise e) else mkEff [] (Ok tt).
Proof.
  intros Hb. induction l as [|x l IH]; [done|].
  change (for_ (x :: l) body) with (body x ;; for_ l body). rewrite Hb. simpl existsb.
  destruct (hit x); simpl orb.
  - by rewrite (bind_raise _ _ e).
  - rewrite (bind_ok _ _ tt) by done. rewrite IH. by destruct (existsb hit l).
Qed.

Lemma matching_nil reactor descriptions :
  matching reactor descriptions = []
  ↔ existsb (λ key, existsb (λ description, match_neighbor description key) descriptions)
      (established_peers reactor) = false.
Proof.
  unfold matching.
  assert (Hin : ∀ key,
    flat_map (λ description,
      if match_neighbor description key then [(key, description)] else []) descriptions = []
    ↔ existsb (λ description, match_neighbor description key) descriptions = false).
  { intros key. induction descriptions as [|d ds IH]; simpl; [done|].
    destruct (match_neighbor d key); simpl; [done | apply IH]. }
  induction (established_peers reactor) as [|k ks IH]; simpl; [done|].
  rewrite orb_false_iff, <- IH, <- Hin. split.
  - by intros [? ?]%app_eq_nil.
  - intros [-> ->]. done.
Qed.

(** The two loops when [int] refuses the code: the first match raises,
    before anything is done. *)
Lemma teardown_loops_refused reactor descriptions code e :
  int code = Raise e →
  for_ (established_peers reactor) (λ key,
    for_ descriptions (λ description,
      if match_neighbor description key then
        n ← lift (int code);
        teardown_peer key n;;
        log_message ("teardown scheduled for " +:+ Py.join " " description)
      else mret tt))
  = if existsb (λ key, existsb (λ description, match_neighbor description key) descriptions)
         (established_peers reactor)
    then mkEff [] (Raise e) else mkEff [] (Ok tt).
Proof.
  intros Hn. apply for_first_raise. intros key. apply for_first_raise. intros d.
  destruct (match_neighbor d key); [|done]. by rewrite Hn, lift_raise_bind.
Qed.

Lemma teardown_events_kind n pairs e :
  e ∈ flat_map (teardown_events n) pairs → is_teardown_peer e || is_log_message e = true.
Proof.
  rewrite list_elem_of_In, in_flat_map. intros (pair & _ & He).
  destruct He as [<-|[<-|[]]]; done.
Qed.

(** The handler on a line whose arguments parse. *)
Lemma teardown_parsed reactor service line descriptions rest verb code n :
  extract_neighbors line = Ok (descriptions, rest) →
  Py.contains_char Py.space rest = true →
  Py.split_once Py.space rest = [verb; code] →
  Py.isdigit code = true →
  int code = Ok n →
  teardown reactor service line
  = mkEff (flat_map (teardown_events n) (matching reactor descriptions) ++ [AnswerDone service])
          (Ok true).
Proof.
  intros Hx Hc Hs Hd Hn. unfold teardown, teardown_try.
  rewrite Hx, lift_ok_bind, Hc, Hs. simpl negb. cbv iota. simpl unpack2.
  rewrite lift_ok_bind, Hd. simpl negb. cbv iota.
  rewrite (teardown_loops reactor descriptions code n Hn).
  rewrite (bind_ok _ _ tt) by done. unfold answer_done. by rewrite tell_bind.
Qed.

(** The handler on a code that passes [isdigit] and that [int] refuses:
    an error when a peer matches, done when none does. *)
Lemma teardown_refused reactor service line descriptions rest verb code :
  extract_neighbors line = Ok (descriptions, rest) →
  Py.contains_char Py.space rest = true →
  Py.split_once Py.space rest = [verb; code] →
  Py.isdigit code = true →
  int code = Raise ValueError →
  teardown reactor service line
  = if existsb (λ key, existsb (λ description, match_neighbor description key) descriptions)
         (established_peers reactor)
    then mkEff [AnswerError service] (Ok false)
    else mkEff [AnswerDone service] (Ok true).
Proof.
  intros Hx Hc Hs Hd Hn. unfold teardown, teardown_try.
  rewrite Hx, lift_ok_bind, Hc, Hs. simpl negb. cbv iota. simpl unpack2.
  rewrite lift_ok_bind, Hd. simpl negb. cbv iota.
  rewrite (teardown_loops_refused reactor descriptions code ValueError Hn).
  destruct (existsb _ (established_peers reactor)).
  - by rewrite (bind_raise _ _ ValueError).
  - rewrite (bind_ok _ _ tt) by done. unfold answer_done. by rewrite tell_bind.
Qed.

(** The code segment of a line is the second part of its split. *)
Lemma code_segment_unique rest verb code code' :
  Py.split_once Py.space rest = [verb; code] →
  Py.contains_char Py.space rest = true →
  Spec.code_segment rest code' → code' = code.
Proof.
  intros Hs Hc Hseg. destruct (code_segment_split _ _ Hseg) as [_ [verb' Hs']].
  rewrite Hs in Hs'. by injection Hs' as _ ->.
Qed.

(** The handler on a line it refuses. *)
Lemma teardown_rejected reactor service line :
  rejected reactor line → teardown reactor service line = mkEff [AnswerError service] (Ok false).
Proof.
  unfold rejected.
  destruct (extract_neighbors line) as [[descriptions rest]|e] eqn:Hx.
  - intros [Hno|(code & Hseg & Hcode)].
    + unfold teardown, teardown_try. rewrite Hx, lift_ok_bind.
      apply no_code_segment in Hno. by rewrite Hno.
    + destruct (code_segment_split _ _ Hseg) as [Hc [verb Hs]].
      destruct (Py.isdigit code) eqn:Hd.
      * destruct Hcode as [Hnd|[Hnc Hm]]; [by apply isdigit_spec in Hd|].
        rewrite (teardown_refused reactor service line descriptions rest verb code)
          by (done || by apply int_refuses).
        destruct (existsb _ (established_peers reactor)) eqn:He; [done|].
        by apply matching_nil in He.
      * unfold teardown, teardown_try.
        rewrite Hx, lift_ok_bind, Hc, Hs. simpl negb. cbv iota. simpl unpack2.
        by rewrite lift_ok_bind, Hd.
  - unfold teardown, teardown_try. rewrite Hx. by intros [-> | ->].
Qed.

(** The ways out of the handler: the exception of [extract_neighbors]
    that the handler does not catch; the answer error, on the lines it
    refuses; the teardowns and the answer done, on the others. *)
Lemma teardown_cases reactor service line :
  (∃ e, extract_neighbors line = Raise e ∧ e ≠ ValueError ∧ e ≠ IndexError
        ∧ teardown reactor service line = mkEff [] (Raise e))
  ∨ (rejected reactor line
     ∧ teardown reactor service line = mkEff [AnswerError service] (Ok false))
  ∨ (¬ rejected reactor line
     ∧ ∃ descriptions rest n,
         extract_neighbors line = Ok (descriptions, rest)
         ∧ teardown reactor service line
           = mkEff (flat_map (teardown_events n) (matching reactor descriptions)
                      ++ [AnswerDone service]) (Ok true)).
Proof.
  destruct (extract_neighbors line) as [[descriptions rest]|e] eqn:Hx.
  - destruct (Py.contains_char Py.space rest) eqn:Hc.
    + destruct (split_once_cut _ _ Hc) as (verb & code & Hs & Heq & Hv).
      assert (Hseg : Spec.code_segment rest code) by (by exists verb).
      destruct (Py.isdigit code) eqn:Hd.
      * destruct (int code) as [n|e] eqn:Hn.
        -- right. right. split.
           ++ unfold rejected. rewrite Hx. intros [Hno|(code' & Hseg' & Hcode)].
              ** apply Hno. by exists code.
              ** rewrite (code_segment_unique _ _ _ _ Hs Hc Hseg') in Hcode.
                 destruct Hcode as [Hnd|[Hnc _]]; [by apply isdigit_spec in Hd|].
                 apply int_refuses in Hnc. congruence.
           ++ exists descriptions, rest, n. split; [done|]. by eapply teardown_parsed.
        -- apply int_raises in Hn as Heq'. subst e.
           pose proof (teardown_refused reactor service line descriptions rest verb code
                         Hx Hc Hs Hd Hn) as Ht.
           destruct (existsb _ (established_peers reactor)) eqn:He.
           ++ right. left. split; [|done]. unfold rejected. rewrite Hx. right.
              exists code. split; [done|]. right. split.
              ** intros Hconv. apply int_converts in Hconv. congruence.
              ** intros Hm. apply matching_nil in Hm. congruence.
           ++ right. right. apply matching_nil in He. split.
              ** unfold rejected. rewrite Hx. intros [Hno|(code' & Hseg' & Hcode)].
                 --- apply Hno. by exists code.
                 --- rewrite (code_segment_unique _ _ _ _ Hs Hc Hseg') in Hcode.
                     destruct Hcode as [Hnd|[_ Hm]]; [by apply isdigit_spec in Hd | done].
              ** exists descriptions, rest, 0%N. split; [done|]. by rewrite He.
      * right. left. assert (Hr : rejected reactor line).
        { unfold rejected. rewrite Hx. right. exists code. split; [done|]. left.
          intros Hdig%isdigit_spec. congruence. }
        split; [done | by apply teardown_rejected].
    + right. left. assert (Hr : rejected reactor line).
      { unfold rejected. rewrite Hx. left. by apply no_code_segment. }
      split; [done | by apply teardown_rejected].
  - assert (He : (e = ValueError ∨ e = IndexError) ∨ (e ≠ ValueError ∧ e ≠ IndexError)).
    { destruct e; (by left; left) || (by left; right) || (by right). }
    destruct He as [He|[Hv Hi]].
    + right. left. assert (Hr : rejected reactor line) by (unfold rejected; by rewrite Hx).
      split; [done | by apply teardown_rejected].
    + left. exists e. split_and!; [done | done | done |].
      unfold teardown, teardown_try. rewrite Hx, lift_raise_bind.
      by destruct e.
Qed.

Lemma count_teardown_peer n pairs service :
  length (List.filter is_teardown_peer (flat_map (teardown_events n) pairs ++ [AnswerDone service]))
  = length pairs.
Proof. induction pairs as [|pair pairs IH]; simpl; [done | by rewrite IH]. Qed.

Lemma count_log_message n pairs service :
  length (List.filter is_log_message (flat_map (teardown_events n) pairs ++ [AnswerDone service]))
  = length pairs.
Proof. induction pairs as [|pair pairs IH]; simpl; [done | by rewrite IH]. Qed.

(** C1, amended.  When the arguments of a teardown command parse (the
    description resolves, what is left has a code segment after its first
    space, and the code is all decimal digits) and the code has no more
    digits than the interpreter converts, or no established peer matches,
    the handler does, for each pair of an established peer and a
    description that matches it, one [teardown_peer] with the number that
    the code writes and one log line, then answers done and returns
    [True]; with no match it answers done all the same. *)
Theorem teardown_calls_each_match reactor service line descriptions rest code :
  extract_neighbors line = Ok (descriptions, rest) →
  Spec.code_segment rest code →
  Spec.decimal code →
  Spec.within_limit code ∨ matching reactor descriptions = [] →
  teardown reactor service line
  = mkEff (flat_map (teardown_events (Spec.value code)) (matching reactor descriptions)
             ++ [AnswerDone service]) (Ok true)
  ∧ length (List.filter is_teardown_peer (log (teardown reactor service line)))
    = length (matching reactor descriptions)
  ∧ length (List.filter is_log_message (log (teardown reactor service line)))
    = length (matching reactor descriptions).
Proof.
  intros Hx Hseg Hdec Hfit.
  destruct (code_segment_split _ _ Hseg) as [Hc [verb Hs]].
  pose proof (proj2 (isdigit_spec code) (decimal_digits code Hdec)) as Hd.
  assert (Ht : teardown reactor service line
               = mkEff (flat_map (teardown_events (Spec.value code))
                          (matching reactor descriptions) ++ [AnswerDone service]) (Ok true)).
  { destruct Hfit as [Hl|Hm].
    - apply (teardown_parsed reactor service line descriptions rest verb code); try done.
      apply int_converts. by split.
    - destruct (int code) as [n|e] eqn:Hn.
      + rewrite (teardown_parsed reactor service line descriptions rest verb code n) by done.
        by rewrite Hm.
      + apply int_raises in Hn as Heq. subst e.
        rewrite (teardown_refused reactor service line descriptions rest verb code) by done.
        rewrite Hm. apply matching_nil in Hm. by rewrite Hm. }
  rewrite Ht. split_and!; [done | apply count_teardown_peer | apply count_log_message].
Qed.

(** C2, amended.  The handler answers with an error and asks for no
    teardown exactly on the lines it refuses: no code segment, a code
    that does not pass [isdigit], a description that does not resolve,
    or a code that passes [isdigit] and that [int] does not convert (a
    superscript digit, or more digits than the limit) when some
    established peer matches; on each of them it does nothing else and
    returns [False] instead of raising. *)
Theorem teardown_error_iff_rejected reactor service line :
  ((AnswerError service ∈ log (teardown reactor service line)
    ∧ ∀ key code, TeardownPeer key code ∉ log (teardown reactor service line))
   ↔ rejected reactor line)
  ∧ (rejected reactor line →
     teardown reactor service line = mkEff [AnswerError service] (Ok false)).
Proof.
  split; [|apply teardown_rejected].
  destruct (teardown_cases reactor service line)
    as [(e & Hx & Hv & Hi & Ht)|[[Hr Ht]|(Hr & ds & rest & n & Hx & Ht)]]; rewrite Ht; simpl.
  - split.
    + by intros [Herr%elem_of_nil _].
    + unfold rejected. rewrite Hx. tauto.
  - split; [done|]. intros _. split; [apply list_elem_of_singleton; done|].
    intros key code Hin. by apply list_elem_of_singleton in Hin.
  - split; [|done]. intros [Herr _]. apply elem_of_app in Herr as [Herr|Herr].
    + by apply teardown_events_kind in Herr.
    + by apply list_elem_of_singleton in Herr.
Qed.

End Teardown.

Lemma teardown_calls_each_match_witness :
  @teardown Example.interpreter Example.limit Example.reactor "api" "teardown 10.0.0.1 6"
  = mkEff [TeardownPeer "10.0.0.1" 6;
           LogMessage "teardown scheduled for 10.0.0.1";
           AnswerDone "api"] (Ok true)
  ∧ length (List.filter is_teardown_peer
              (log (@teardown Example.interpreter Example.limit Example.reactor "api"
                      "teardown 10.0.0.1 6"))) = 1%nat
  ∧ length (List.filter is_log_message
              (log (@teardown Example.interpreter Example.limit Example.reactor "api"
                      "teardown 10.0.0.1 6"))) = 1%nat.
Proof.
  refine (@teardown_calls_each_match Example.interpreter Example.limit Example.reactor "api"
            "teardown 10.0.0.1 6" [["10.0.0.1"]] "teardown 6" "6" _ _ _ _).
  - reflexivity.
  - exists "teardown". split; [reflexivity|].
    refine (bool_decide_unpack _ _). vm_compute. exact I.
  - split; [discriminate|]. repeat constructor; unfold Spec.decimal_digit; simpl; lia.
  - left. right. vm_compute. lia.
Defined.

(** C1 as stated fails: with the limit of 4300 digits that Python sets,
    a code of 4301 digits is all decimal digits, the description resolves
    and the established peer 10.0.0.1 matches it, and the handler asks
    for no teardown and answers with an error. *)
Lemma teardown_long_code_error :
  let line := "teardown 10.0.0.1 " +:+ Example.long_code in
  @extract_neighbors Example.limit line
  = Ok ([["10.0.0.1"]], "teardown " +:+ Example.long_code)
  ∧ Spec.code_segment ("teardown " +:+ Example.long_code) Example.long_code
  ∧ Spec.decimal Example.long_code
  ∧ @matching Example.limit Example.reactor [["10.0.0.1"]] = [("10.0.0.1", ["10.0.0.1"])]
  ∧ @teardown Example.interpreter Example.limit Example.reactor "api" line
    = mkEff [AnswerError "api"] (Ok false).
Proof.
  split_and!.
  - vm_compute. reflexivity.
  - exists "teardown". split; [reflexivity|].
    refine (bool_decide_unpack _ _). vm_compute. exact I.
  - split; [discriminate|]. unfold Example.long_code, Spec.chars.
    rewrite list_ascii_of_string_of_list_ascii. apply Forall_replicate.
    unfold Spec.decimal_digit. vm_compute. lia.
  - reflexivity.
  - vm_compute. reflexivity.
Qed.

(** C2 as stated fails: the code superscript two is not all decimal
    digits, and with no established peer matching the description the
    handler answers done, not error. *)
Lemma teardown_superscript_done :
  let line := "teardown 10.0.0.9 " +:+ Example.superscript_two in
  @extract_neighbors Example.limit line
  = Ok ([["10.0.0.9"]], "teardown " +:+ Example.superscript_two)
  ∧ Spec.code_segment ("teardown " +:+ Example.superscript_two) Example.superscript_two
  ∧ ¬ Spec.decimal Example.superscript_two
  ∧ @teardown Example.interpreter Example.limit Example.reactor "api" line
    = mkEff [AnswerDone "api"] (Ok true).
Proof.
  split_and!.
  - reflexivity.
  - exists "teardown". split; [reflexivity|].
    refine (bool_decide_unpack _ _). vm_compute. exact I.
  - intros [_ Hd]. unfold Spec.chars in Hd. simpl in Hd.
    apply Forall_cons in Hd as [Hd _]. unfold Spec.decimal_digit in Hd.
    vm_compute in Hd. lia.
  - reflexivity.
Qed.

(** The two lines of the specification, and the refusals of [int]. *)
Example teardown_one_match :
  @teardown Example.interpreter Example.limit Example.reactor "api" "teardown 10.0.0.1 6"
  = mkEff [TeardownPeer "10.0.0.1" 6; LogMessage "teardown scheduled for 10.0.0.1";
           AnswerDone "api"] (Ok true).
Proof. reflexivity. Qed.

Example teardown_bad_code :
  @teardown Example.interpreter Example.limit Example.reactor "api" "teardown * abc"
  = mkEff [AnswerError "api"] (Ok false).
Proof. reflexivity. Qed.

Example teardown_no_match :
  @teardown Example.interpreter Example.limit Example.reactor "api" "teardown 10.0.0.9 6"
  = mkEff [AnswerDone "api"] (Ok true).
Proof. reflexivity. Qed.

Example teardown_superscript_match :
  @teardown Example.interpreter Example.limit Example.reactor "api"
    ("teardown 10.0.0.1 " +:+ Example.superscript_two)
  = mkEff [AnswerError "api"] (Ok false).
Proof. reflexivity. Qed.

(** ** [SectionFamily] *)

Section FamilyFacts.

Import Family.
Context `{Protocol} `{Engine}.

(** One turn of the loop of [_add]. *)
Lemma _add_loop_cons afi_name safi_name safi_names known :
  run (_add_loop afi_name (safi_name :: safi_names)) known
  = if bool_decide (safi_name ∉ implemented_safi afi_name) then
      (known, Raise (RaisedFamily (unimplemented_message afi_name safi_name)))
    else if bool_decide (SAFI_value safi_name ∈ known) then
      (known, Raise (RaisedFamily already_defined_message))
    else run (_add_loop afi_name safi_names) (known ++ [SAFI_value safi_name]).
Proof.
  simpl.
  destruct (bool_decide (safi_name ∉ implemented_safi afi_name)); [done|]. simpl.
  destruct (bool_decide (SAFI_value safi_name ∈ known)); done.
Qed.

(** Names that are implemented and new, one after the other, are all
    appended. *)
Lemma _add_loop_accepts afi_name pre rest known :
  Forall (λ safi_name, safi_name ∈ implemented_safi afi_name) pre →
  NoDup (map SAFI_value pre) →
  (∀ safi, safi ∈ map SAFI_value pre → safi ∉ known) →
  run (_add_loop afi_name (pre ++ rest)) known
  = run (_add_loop afi_name rest) (known ++ map SAFI_value pre).
Proof.
  revert known. induction pre as [|safi_name pre IH]; intros known Himp Hnd Hnew.
  - by rewrite app_nil_r.
  - apply Forall_cons in Himp as [Hi Himp]. simpl in Hnd, Hnew.
    apply NoDup_cons in Hnd as [Hfresh Hnd].
    change ((safi_name :: pre) ++ rest) with (safi_name :: (pre ++ rest)).
    rewrite _add_loop_cons.
    rewrite bool_decide_eq_false_2 by (intros Hn; by apply Hn).
    rewrite bool_decide_eq_false_2 by (apply Hnew; left).
    rewrite IH; [by rewrite <- app_assoc | done | done |].
    intros safi Hin. rewrite not_elem_of_app, not_elem_of_cons. split_and!.
    + apply Hnew. by right.
    + intros ->. done.
    + apply not_elem_of_nil.
Qed.

(** The entry of an AFI that [setdefault] creates records no pair. *)
Lemma recorded_setdefault (content : Content) afi a s :
  recorded (<[afi := default [] (content !! afi)]> content) a s ↔ recorded content a s.
Proof.
  unfold recorded. destruct (decide (afi = a)) as [->|Hne].
  - rewrite lookup_insert_eq. destruct (content !! a) as [known|]; simpl.
    + done.
    + split; intros (known & Hk & Hin); [|done].
      injection Hk as <-. by apply elem_of_nil in Hin.
  - by rewrite lookup_insert_ne.
Qed.

Lemma recorded_insert (content : Content) afi known a s :
  recorded (<[afi := known]> content) a s
  ↔ (a = afi ∧ s ∈ known) ∨ (a ≠ afi ∧ recorded content a s).
Proof.
  unfold recorded. destruct (decide (afi = a)) as [->|Hne].
  - rewrite lookup_insert_eq. split.
    + intros (k & [= <-] & Hin). by left.
    + intros [[_ Hin]|[Hn _]]; [by exists known | done].
  - rewrite lookup_insert_ne by done. split.
    + intros Hr. right. by split.
    + intros [[-> _]|[_ Hr]]; done.
Qed.

(** C4, amended.  A call of [_add] that passes the inherited check fails
    at the first name that is not implemented for the AFI (the
    unimplemented error) or whose SAFI is recorded already, before the
    call or by an earlier name of the call (the already-defined error).
    The names before it are recorded and stay so: the declaration ends
    with the entry of the AFI holding what it held followed by their
    SAFI, and with no other pair added. *)
Theorem add_rejects_at_first_bad afi_name pre bad post (content : Content) :
  _check_duplicate content = None →
  Forall (λ safi_name, safi_name ∈ implemented_safi afi_name) pre →
  NoDup (map SAFI_value pre) →
  (∀ safi, safi ∈ map SAFI_value pre → safi ∉ default [] (content !! AFI_value afi_name)) →
  let afi := AFI_value afi_name in
  let known := default [] (content !! afi) ++ map SAFI_value pre in
  let after := <[afi := known]> content in
  (bad ∉ implemented_safi afi_name →
   run (_add afi_name (pre ++ bad :: post)) content
   = (after, Raise (RaisedFamily (unimplemented_message afi_name bad))))
  ∧ (bad ∈ implemented_safi afi_name → SAFI_value bad ∈ known →
     run (_add afi_name (pre ++ bad :: post)) content
     = (after, Raise (RaisedFamily already_defined_message)))
  ∧ (∀ a s, recorded after a s ↔ recorded content a s ∨ (a = afi ∧ s ∈ map SAFI_value pre)).
Proof.
  intros Hcheck Himp Hnd Hnew afi known after. split_and!.
  - intros Hbad. unfold _add. simpl. rewrite Hcheck.
    rewrite _add_loop_accepts by done. rewrite _add_loop_cons.
    by rewrite bool_decide_eq_true_2.
  - intros Hbad Hdup. unfold _add. simpl. rewrite Hcheck.
    rewrite _add_loop_accepts by done. rewrite _add_loop_cons.
    rewrite bool_decide_eq_false_2 by (intros Hn; by apply Hn).
    by rewrite bool_decide_eq_true_2.
  - intros a s. unfold after, known. rewrite recorded_insert.
    destruct (decide (a = afi)) as [->|Hne].
    + rewrite elem_of_app. unfold recorded.
      destruct (content !! afi) as [k|]; simpl; split.
      * intros [[_ [Hin|Hin]]|[Hn _]]; [left; by exists k | by right | done].
      * intros [(k' & [= <-] & Hin)|[_ Hin]]; left; (split; [done|]); [by left | by right].
      * intros [[_ [Hin|Hin]]|[Hn _]]; [by apply elem_of_nil in Hin | by right | done].
      * intros [(k' & Hk & _)|[_ Hin]]; [done|]. left. split; [done | by right].
    + split.
      * intros [[Heq _]|[_ Hr]]; [done | by left].
      * intros [Hr|[Heq _]]; [right; by split | done].
Qed.

End FamilyFacts.

Lemma add_rejects_at_first_bad_witness :
  run (@Family._add Example.protocol Example.engine "ipv4" ["unicast"; "unicast"]) ∅
  = (<[1%N := [1%N]]> ∅, Raise (RaisedFamily Family.already_defined_message)).
Proof.
  refine (proj1 (proj2
    (@add_rejects_at_first_bad Example.protocol Example.engine "ipv4" ["unicast"] "unicast" [] ∅
       _ _ _ _)) _ _).
  - reflexivity.
  - repeat constructor.
  - repeat constructor. apply not_elem_of_nil.
  - intros safi _. apply not_elem_of_nil.
  - repeat constructor.
  - repeat constructor.
Defined.

(** C4 as stated fails: a call that raises can leave the declaration
    changed.  With an empty declaration, [ipv4 [unicast unicast]] raises
    the already-defined error and leaves ipv4/unicast recorded;
    [ipv6 [multicast]] raises the unimplemented error and leaves an empty
    entry for ipv6. *)
Lemma add_failure_changes_content :
  let twice := run (@Family._add Example.protocol Example.engine "ipv4" ["unicast"; "unicast"]) ∅ in
  let other := run (@Family._add Example.protocol Example.engine "ipv6" ["multicast"]) ∅ in
  twice.2 = Raise (RaisedFamily Family.already_defined_message)
  ∧ twice.1 !! 1%N = Some [1%N]
  ∧ twice.1 ≠ ∅
  ∧ other.2 = Raise (RaisedFamily (Family.unimplemented_message "ipv6" "multicast"))
  ∧ other.1 !! 2%N = Some []
  ∧ other.1 ≠ ∅.
Proof.
  split_and!; try reflexivity.
  - intros Heq. apply (f_equal (λ m : gmap N (list N), m !! 1%N)) in Heq. discriminate Heq.
  - intros Heq. apply (f_equal (λ m : gmap N (list N), m !! 2%N)) in Heq. discriminate Heq.
Qed.

Section FamilyAll.

Import Family.
Context `{Engine}.
Variables afi_value safi_value : string → N.

(** C3, on the code.  Whatever the codes of the names, whatever the
    inherited check does and whatever the declaration holds, [all] with
    the implemented pairs of the grammar raises in its first call of
    [_add], and records no pair: [_add] loops over the characters of
    [unicast], and [u] is not an implemented SAFI. *)
Theorem all_raises (content : Content) :
  ∃ message after,
    run (@all (syntax_protocol afi_value safi_value) _) content
    = (after, Raise (RaisedFamily message))
    ∧ (∀ a s, recorded after a s ↔ recorded content a s)
    ∧ (_check_duplicate content = None → message = unimplemented_message "ipv4" "u").
Proof.
  unfold all. simpl.
  destruct (_check_duplicate content) as [message|] eqn:Hcheck; simpl.
  - by exists message, content.
  - eexists _, _. split_and!; [reflexivity | | done].
    intros a s. apply recorded_setdefault.
Qed.

End FamilyAll.

Example all_on_empty :
  run (@Family.all Example.protocol Example.engine) ∅
  = ({[1%N := []]}, Raise (RaisedFamily "the family pair afi/safi ipv4/u is unimplemented")).
Proof. reflexivity. Qed.

Example ipv4_on_empty :
  (run (@Family.ipv4 Example.protocol Example.engine ["unicast"; "flow"]) ∅).1 !! 1%N = Some [1; 133]%N.
Proof. reflexivity. Qed.

(** ** [Neighbor.as_dict] *)

Section AsDict.

Import Neighbor.

Lemma families_loop_from items acc :
  fa_families (fold_left families_step items acc)
  = fa_families acc ++ map family_item_key (List.filter family_item_both items).
Proof.
  revert acc. induction items as [|[[a s] [[[l p] aps] apr]] items IH]; intros acc; simpl.
  - by rewrite app_nil_r.
  - rewrite IH. simpl. destruct (truth l && truth p); simpl; [by rewrite <- app_assoc | done].
Qed.

Lemma capabilities_loop_from items acc :
  ca_capabilities (fold_left capabilities_step items acc)
  = ca_capabilities acc ++ map fst (List.filter capability_item_both items).
Proof.
  revert acc. induction items as [|[k [l p]] items IH]; intros acc; simpl.
  - by rewrite app_nil_r.
  - rewrite IH. simpl. destruct (truth l && truth p); simpl; [by rewrite <- app_assoc | done].
Qed.

(** Every family of the snapshot gets its key in the four per-side maps
    and in the add-path map, and no other key does. *)
Lemma families_loop_keys items acc k :
  let out := fold_left families_step items acc in
  (is_Some (fa_local out !! k) ↔ is_Some (fa_local acc !! k) ∨ k ∈ map family_item_key items)
  ∧ (is_Some (fa_peer out !! k) ↔ is_Some (fa_peer acc !! k) ∨ k ∈ map family_item_key items).
Proof.
  revert acc. induction items as [|[[a s] [[[l p] aps] apr]] items IH]; intros acc; simpl.
  - split; (split; [by left | intros [?|?%elem_of_nil]; done]).
  - destruct (IH (families_step acc (a, s, (l, p, aps, apr)))) as [IHl IHp].
    rewrite IHl, IHp. simpl. rewrite !lookup_insert_is_Some, !elem_of_cons.
    change (family_item_key (a, s, (l, p, aps, apr))) with (families_key a s).
    clear; split; (split; intros Hk; destruct (decide (families_key a s = k)); intuition auto).
Qed.

Lemma capabilities_loop_keys items acc k :
  let out := fold_left capabilities_step items acc in
  (is_Some (ca_local out !! k) ↔ is_Some (ca_local acc !! k) ∨ k ∈ map fst items)
  ∧ (is_Some (ca_peer out !! k) ↔ is_Some (ca_peer acc !! k) ∨ k ∈ map fst items).
Proof.
  revert acc. induction items as [|[k' [l p]] items IH]; intros acc; simpl.
  - split; (split; [by left | intros [?|?%elem_of_nil]; done]).
  - destruct (IH (capabilities_step acc (k', (l, p)))) as [IHl IHp].
    rewrite IHl, IHp. simpl. rewrite !lookup_insert_is_Some, !elem_of_cons.
    clear; split; (split; intros Hk; destruct (decide (k' = k)); intuition auto).
Qed.

(** Among items of distinct keys, the key of an item is kept by the
    filter exactly when the item passes it. *)
Lemma key_in_filter {A K} (key : A → K) (both : A → bool) (items : list A) item :
  NoDup (map key items) → item ∈ items →
  key item ∈ map key (List.filter both items) ↔ both item = true.
Proof.
  assert (Hsub : ∀ l k, k ∈ map key (List.filter both l) → k ∈ map key l).
  { intros l k. rewrite !list_elem_of_In, !in_map_iff.
    intros (x & Hx & Hin%filter_In). exists x. tauto. }
  induction items as [|x items IH]; [by intros _ ?%elem_of_nil|].
  simpl. rewrite NoDup_cons, elem_of_cons. intros [Hx Hnd] [->|Hin].
  - destruct (both x) eqn:Hb; simpl.
    + split; [done | intros _; by left].
    + split; [|done]. intros Hk%Hsub. done.
  - assert (Hne : key item ≠ key x).
    { intros Heq. apply Hx. rewrite <- Heq, list_elem_of_In. apply in_map.
      by apply list_elem_of_In. }
    rewrite <- (IH Hnd Hin). destruct (both x); simpl; [|done].
    rewrite elem_of_cons. split; [by intros [?|?] | by right].
Qed.

(** The three add-path maps are keyed as the per-side maps of the
    families are: by every family of the snapshot. *)
Lemma families_loop_add_path_keys items acc k :
  let out := fold_left families_step items acc in
  (is_Some (fa_add_path out !! k)
   ↔ is_Some (fa_add_path acc !! k) ∨ k ∈ map family_item_key items)
  ∧ (is_Some (fa_local_add_path out !! k)
     ↔ is_Some (fa_local_add_path acc !! k) ∨ k ∈ map family_item_key items)
  ∧ (is_Some (fa_peer_add_path out !! k)
     ↔ is_Some (fa_peer_add_path acc !! k) ∨ k ∈ map family_item_key items).
Proof.
  revert acc. induction items as [|[[a s] [[[l p] aps] apr]] items IH]; intros acc; simpl.
  - split_and!; (split; [by left | intros [?|?%elem_of_nil]; done]).
  - destruct (IH (families_step acc (a, s, (l, p, aps, apr)))) as (IHt & IHl & IHp).
    rewrite IHt, IHl, IHp. simpl. rewrite !lookup_insert_is_Some, !elem_of_cons.
    change (family_item_key (a, s, (l, p, aps, apr))) with (families_key a s).
    clear; split_and!;
      (split; intros Hk; destruct (decide (families_key a s = k)); intuition auto).
Qed.

(** C8, amended.  In the object that [as_dict] builds, the top-level list of
    families is the keys ["AFI SAFI"] of the families whose local and peer
    flags are both true, in the order of the snapshot, and the top-level
    list of capabilities is the names of those with both flags true.  The
    other families are in neither list, yet not only in the per-side
    maps: every family of the snapshot has its key in the per-side maps
    of the families and of add-path and in the top-level add-path map,
    and nothing else has.  Every capability has its key in the two
    per-side maps of the capabilities, and nothing else has. *)
Theorem as_dict_both_sides answer :
  f_families (as_dict answer)
  = map family_item_key (List.filter family_item_both (families answer))
  ∧ f_capabilities (as_dict answer)
    = map fst (List.filter capability_item_both (capabilities answer))
  ∧ (∀ k, is_Some (l_families (f_local (as_dict answer)) !! k)
          ↔ k ∈ map family_item_key (families answer))
  ∧ (∀ k, is_Some (p_families (f_peer (as_dict answer)) !! k)
          ↔ k ∈ map family_item_key (families answer))
  ∧ (∀ k, is_Some (l_capabilities (f_local (as_dict answer)) !! k)
          ↔ k ∈ map fst (capabilities answer))
  ∧ (∀ k, is_Some (p_capabilities (f_peer (as_dict answer)) !! k)
          ↔ k ∈ map fst (capabilities answer))
  ∧ (NoDup (map family_item_key (families answer)) →
     ∀ item, item ∈ families answer →
       family_item_key item ∈ f_families (as_dict answer) ↔ family_item_both item = true)
  ∧ (NoDup (map fst (capabilities answer)) →
     ∀ item, item ∈ capabilities answer →
       item.1 ∈ f_capabilities (as_dict answer) ↔ capability_item_both item = true)
  ∧ (∀ k, is_Some (f_add_path (as_dict answer) !! k)
          ↔ k ∈ map family_item_key (families answer))
  ∧ (∀ k, is_Some (l_add_path (f_local (as_dict answer)) !! k)
          ↔ k ∈ map family_item_key (families answer))
  ∧ (∀ k, is_Some (p_add_path (f_peer (as_dict answer)) !! k)
          ↔ k ∈ map family_item_key (families answer)).
Proof.
  assert (Hf : f_families (as_dict answer)
               = map family_item_key (List.filter family_item_both (families answer))).
  { unfold as_dict; simpl. unfold families_loop. by rewrite families_loop_from. }
  assert (Hc : f_capabilities (as_dict answer)
               = map fst (List.filter capability_item_both (capabilities answer))).
  { unfold as_dict; simpl. unfold capabilities_loop. by rewrite capabilities_loop_from. }
  split_and!; [done | done | | | | | | | | |].
  - intros k. unfold as_dict; simpl. unfold families_loop.
    rewrite (proj1 (families_loop_keys _ _ k)). simpl. rewrite lookup_empty.
    split; [intros [[? ?]|?]; done | by right].
  - intros k. unfold as_dict; simpl. unfold families_loop.
    rewrite (proj2 (families_loop_keys _ _ k)). simpl. rewrite lookup_empty.
    split; [intros [[? ?]|?]; done | by right].
  - intros k. unfold as_dict; simpl. unfold capabilities_loop.
    rewrite (proj1 (capabilities_loop_keys _ _ k)). simpl. rewrite lookup_empty.
    split; [intros [[? ?]|?]; done | by right].
  - intros k. unfold as_dict; simpl. unfold capabilities_loop.
    rewrite (proj2 (capabilities_loop_keys _ _ k)). simpl. rewrite lookup_empty.
    split; [intros [[? ?]|?]; done | by right].
  - intros Hnd item Hin. rewrite Hf. by apply key_in_filter.
  - intros Hnd item Hin. rewrite Hc. by apply (key_in_filter fst).
  - intros k. unfold as_dict; simpl. unfold families_loop.
    rewrite (proj1 (families_loop_add_path_keys _ _ k)). simpl. rewrite lookup_empty.
    split; [intros [[? ?]|?]; done | by right].
  - intros k. unfold as_dict; simpl. unfold families_loop.
    rewrite (proj1 (proj2 (families_loop_add_path_keys _ _ k))). simpl. rewrite lookup_empty.
    split; [intros [[? ?]|?]; done | by right].
  - intros k. unfold as_dict; simpl. unfold families_loop.
    rewrite (proj2 (proj2 (families_loop_add_path_keys _ _ k))). simpl. rewrite lookup_empty.
    split; [intros [[? ?]|?]; done | by right].
Qed.

(** With distinct keys, the per-side maps hold the flags of each family. *)
Lemma families_loop_lookup items acc a s l p aps apr :
  NoDup (map family_item_key items) →
  ((a, s), (l, p, aps, apr)) ∈ items →
  let out := fold_left families_step items acc in
  fa_local out !! families_key a s = Some l
  ∧ fa_peer out !! families_key a s = Some p
  ∧ fa_add_path out !! families_key a s = Some (_addpath aps apr).
Proof.
  revert acc. induction items as [|x items IH]; intros acc; [by intros _ ?%elem_of_nil|].
  simpl. rewrite NoDup_cons, elem_of_cons. intros [Hx Hnd] [<-|Hin].
  - clear IH. assert (Hkeep : ∀ acc',
      fa_local acc' !! families_key a s = Some l
      ∧ fa_peer acc' !! families_key a s = Some p
      ∧ fa_add_path acc' !! families_key a s = Some (_addpath aps apr) →
      fa_local (fold_left families_step items acc') !! families_key a s = Some l
      ∧ fa_peer (fold_left families_step items acc') !! families_key a s = Some p
      ∧ fa_add_path (fold_left families_step items acc') !! families_key a s
        = Some (_addpath aps apr)).
    { clear Hnd. induction items as [|[[a' s'] [[[l' p'] aps'] apr']] items IH];
        intros acc' Hacc; [done|].
      simpl in Hx. rewrite not_elem_of_cons in Hx. destruct Hx as [Hne Hx].
      simpl. apply (IH Hx). simpl.
      change (family_item_key (a', s', (l', p', aps', apr'))) with (families_key a' s') in Hne.
      rewrite !lookup_insert_ne by done. done. }
    apply Hkeep. simpl. by rewrite !lookup_insert_eq.
  - by apply IH.
Qed.

End AsDict.

(** C8 as stated fails: a family that only the local side has is not in
    the list of the families, and is in the top-level add-path map all
    the same, not only in the per-side maps. *)
Lemma as_dict_files_other_family_at_top :
  let formated := Neighbor.as_dict (Example.answer "10.0.0.1" (Some 3661%Z)) in
  ¬ elem_of "ipv6 unicast" (Neighbor.f_families formated)
  ∧ Neighbor.l_families (Neighbor.f_local formated) !! "ipv6 unicast" = Some (Some true)
  ∧ Neighbor.p_families (Neighbor.f_peer formated) !! "ipv6 unicast" = Some None
  ∧ Neighbor.f_add_path formated !! "ipv6 unicast" = Some "disabled".
Proof.
  split_and!; [|reflexivity..].
  change (¬ elem_of "ipv6 unicast" ["ipv4 unicast"]). by intros ?%list_elem_of_singleton.
Qed.

Example as_dict_lists :
  let formated := Neighbor.as_dict (Example.answer "10.0.0.1" (Some 3661%Z)) in
  Neighbor.f_families formated = ["ipv4 unicast"]
  ∧ Neighbor.f_capabilities formated = ["asn4"]
  ∧ Neighbor.l_families (Neighbor.f_local formated) !! "ipv6 unicast" = Some (Some true)
  ∧ Neighbor.p_families (Neighbor.f_peer formated) !! "ipv6 unicast" = Some None
  ∧ Neighbor.p_capabilities (Neighbor.f_peer formated) !! "route-refresh" = Some (Some false)
  ∧ Neighbor.f_state formated = "up"
  ∧ Neighbor.f_duration formated = Some 3661%Z.
Proof. repeat split; reflexivity. Qed.

(** ** Padding *)

Section Padding.

Lemma length_append (s t : string) :
  String.length (s +:+ t) = (String.length s + String.length t)%nat.
Proof. induction s as [|a s IH]; [done | rewrite append_cons; simpl; by rewrite IH]. Qed.

Lemma length_spaces n : String.length (Py.spaces n) = n.
Proof. induction n as [|n IH]; simpl; [done | by rewrite IH]. Qed.

(** The padded field is never narrower than its width, and is as wide as
    it when the text fits. *)
Lemma length_ljust w s : String.length (Py.ljust w s) = (w `max` String.length s)%nat.
Proof. unfold Py.ljust. rewrite length_append, length_spaces. lia. Qed.

Lemma length_rjust w s : String.length (Py.rjust w s) = (w `max` String.length s)%nat.
Proof. unfold Py.rjust. rewrite length_append, length_spaces. lia. Qed.

End Padding.

(** ** [Neighbor.summary] and the truth of [duration] *)

Section Summary.

Import Neighbor.

(** The row of [summary], whatever the snapshot: six columns, the third
    the uptime or [down]. *)
Lemma summary_layout answer :
  summary answer
  = updown ← (if truth_seconds (duration answer) then
                d ← timedelta (duration answer); mret (Timedelta.str d)
              else mret "down");
    update ← getitem (messages answer) "update";
    mret (Py.ljust 15 (peer_address answer) +:+ " "
          +:+ Py.ljust 7 (_pr Py.str_N (peer_as answer)) +:+ " "
          +:+ Py.rjust 9 updown +:+ " "
          +:+ Py.ljust 12 (Py.lower (state answer)) +:+ " "
          +:+ Py.rjust 10 (Py.str_N update.1) +:+ " "
          +:+ Py.rjust 10 (Py.str_N update.2)).
Proof. reflexivity. Qed.

(** C9.  For a peer up for 3661 seconds, the row of [summary] is the peer
    address left-justified in 15 columns, the AS left-justified in 7, the
    uptime [1:01:01] right-justified in 9, the state in lower case
    left-justified in 12, and the counts of update messages sent and
    received right-justified in 10 columns each, one space between
    columns. *)
Theorem summary_up_3661 answer sent received :
  duration answer = Some 3661%Z →
  getitem (messages answer) "update" = Ok (sent, received) →
  ∃ state_column,
    Spec.lowercase (state answer) state_column
    ∧ summary answer
      = Ok (Py.ljust 15 (peer_address answer) +:+ " "
            +:+ Py.ljust 7 (_pr Py.str_N (peer_as answer)) +:+ " "
            +:+ Py.rjust 9 "1:01:01" +:+ " "
            +:+ Py.ljust 12 state_column +:+ " "
            +:+ Py.rjust 10 (Py.str_N sent) +:+ " "
            +:+ Py.rjust 10 (Py.str_N received)).
Proof.
  intros Hd Hu. exists (Py.lower (state answer)). split; [by apply lower_spec|].
  rewrite summary_layout, Hd. simpl truth_seconds. cbv iota.
  change (timedelta (Some 3661%Z)) with (Ok (Timedelta.mk 0 3661)).
  change (Timedelta.str (Timedelta.mk 0 3661)) with "1:01:01".
  by rewrite Hu.
Qed.

(** C10.  A snapshot whose duration is 0, with no down time, is rendered
    as down: [as_dict] gives the state [down] and the null down time as
    the duration, and [summary] puts [down] in the up/down column. *)
Theorem zero_duration_renders_down answer :
  duration answer = Some 0%Z →
  down answer = None →
  f_state (as_dict answer) = "down"
  ∧ f_duration (as_dict answer) = None
  ∧ summary answer
    = update ← getitem (messages answer) "update";
      mret (summary_template (peer_address answer) (_pr Py.str_N (peer_as answer)) "down"
              (Py.lower (state answer)) update.1 update.2).
Proof.
  intros Hd Hn. unfold as_dict, summary; simpl. by rewrite Hd, Hn.
Qed.

End Summary.

Lemma summary_up_3661_witness :
  Spec.lowercase "ESTABLISHED" "established"
  ∧ Neighbor.summary (Example.answer "10.0.0.1" (Some 3661%Z))
    = Ok "10.0.0.1        65001     1:01:01 established          12       3456".
Proof.
  destruct (summary_up_3661 (Example.answer "10.0.0.1" (Some 3661%Z)) 12 3456
              eq_refl eq_refl) as (state_column & Hlower & Hrow).
  pose proof Hlower as ->%lower_spec. split; [exact Hlower | exact Hrow].
Defined.

Lemma zero_duration_renders_down_witness :
  Neighbor.f_state (Neighbor.as_dict (Example.answer "10.0.0.1" (Some 0%Z))) = "down"
  ∧ Neighbor.f_duration (Neighbor.as_dict (Example.answer "10.0.0.1" (Some 0%Z))) = None
  ∧ Neighbor.summary (Example.answer "10.0.0.1" (Some 0%Z))
    = update ← getitem (Neighbor.messages (Example.answer "10.0.0.1" (Some 0%Z))) "update";
      mret (Neighbor.summary_template "10.0.0.1" (Neighbor._pr Py.str_N (Some 65001%N)) "down"
              (Py.lower "ESTABLISHED") update.1 update.2).
Proof.
  apply (zero_duration_renders_down (Example.answer "10.0.0.1" (Some 0%Z))); reflexivity.
Defined.

Example summary_row :
  Neighbor.summary (Example.answer "10.0.0.1" (Some 3661%Z))
  = Ok "10.0.0.1        65001     1:01:01 established          12       3456".
Proof. reflexivity. Qed.

Example summary_row_zero :
  Neighbor.summary (Example.answer "10.0.0.1" (Some 0%Z))
  = Ok "10.0.0.1        65001        down established          12       3456".
Proof. reflexivity. Qed.

(** ** The two readings of the tuple of a family *)

Section AddPath.

Import Neighbor.

(** What each path puts in the add-path place of one family: [as_dict]
    takes the third flag for send and the fourth for receive, [extensive]
    the fourth for send and the third for receive. *)
Lemma as_dict_add_path_one a s l p third fourth :
  fa_add_path (families_loop [((a, s), (l, p, third, fourth))]) !! families_key a s
  = Some (_addpath third fourth).
Proof. unfold families_loop; simpl. apply lookup_insert_eq. Qed.

Lemma family_row_add_path a s l p third fourth :
  family_row ((a, s), (l, p, third, fourth))
  = extensive_kv (families_key a s +:+ ":") (_en l) (_en p) (_addpath fourth third).
Proof. unfold family_row, families_key. by rewrite append_assoc. Qed.

Lemma _addpath_swap send receive :
  _addpath send receive = _addpath receive send ↔ truth send = truth receive.
Proof. unfold _addpath. destruct (truth send), (truth receive); simpl; split; done. Qed.

(** C5, on the code.  For the family ipv4 unicast with the tuple
    [(True, True, True, False)], [as_dict] gives the add-path mode [send]
    and [extensive] prints [receive] in the add-path column. *)
Theorem add_path_differs :
  let answer := Example.answer "10.0.0.1" (Some 3661%Z) in
  f_add_path (as_dict answer) !! "ipv4 unicast" = Some "send"
  ∧ ∃ text, extensive answer = Ok text
      ∧ Py.split_char Py.newline text !! 17%nat
        = Some "   ipv4 unicast:                enabled         enabled         receive".
Proof.
  split; [reflexivity|]. eexists. split; reflexivity.
Qed.

End AddPath.

(** ** [show neighbor] *)

Section ShowNeighbor.

Context `{Json}.

Lemma mret_bind {E A B} (a : A) (f : A → Eff E B) : mret a ≫= f = f a.
Proof. apply (lift_ok_bind a f). Qed.

Lemma for_cons {E A} (x : A) l (body : A → Eff E unit) :
  for_ (x :: l) body = (body x ;; for_ l body).
Proof. reflexivity. Qed.

(** A loop that skips some elements is the loop over the others. *)
Lemma for_skip {E A} (skip : A → bool) (body : A → Eff E unit) l :
  for_ l (λ x, if skip x then mret tt else body x)
  = for_ (List.filter (λ x, negb (skip x)) l) body.
Proof.
  induction l as [|x l IH]; [done|].
  rewrite for_cons, IH. simpl List.filter.
  destruct (skip x); simpl negb; cbv iota; [by rewrite mret_bind | by rewrite for_cons].
Qed.

(** [needle in hay] is the occurrence of [needle] in [hay]. *)
Lemma startswith_prefix p s : Py.startswith p s = true ↔ ∃ after, s = p +:+ after.
Proof.
  revert s. induction p as [|a p IH]; intros s.
  - split; [intros _; by exists s | done].
  - destruct s as [|b s]; simpl.
    + split; [done | intros [after Heq]; by rewrite append_cons in Heq].
    + destruct (decide (a = b)) as [->|Hne].
      * rewrite IH. split; intros [after Heq]; exists after.
        -- by rewrite append_cons, Heq.
        -- rewrite append_cons in Heq. by injection Heq.
      * split; [done | intros [after Heq]]. rewrite append_cons in Heq. by injection Heq.
Qed.

Lemma contains_substring needle hay :
  Py.contains needle hay = true ↔ Spec.substring needle hay.
Proof.
  unfold Spec.substring. induction hay as [|b hay IH]; simpl.
  - rewrite orb_false_r, startswith_prefix. split.
    + intros [after Heq]. by exists EmptyString, after.
    + intros ([|c before] & after & Heq); [by exists after|].
      by rewrite append_cons in Heq.
  - rewrite orb_true_iff, IH.
    change (match needle with
            | EmptyString => true
            | String a p' => if decide (a = b) then Py.startswith p' hay else false
            end) with (Py.startswith needle (String b hay)).
    rewrite startswith_prefix. split.
    + intros [[after Heq]|(before & after & Heq)].
      * by exists EmptyString, after.
      * exists (String b before), after. by rewrite append_cons, Heq.
    + intros ([|c before] & after & Heq).
      * left. by exists after.
      * right. rewrite append_cons in Heq. injection Heq as -> Heq. by exists before, after.
Qed.

(** Which handler [show_neighbor] schedules, once the words that remain
    have a last one. *)
Lemma show_neighbor_dispatch reactor service command last_word :
  last (remaining_words (Py.split command)) = Some last_word →
  show_neighbor reactor service command
  = let words := Py.split command in
    let limit := limit_of words in
    if bool_decide ("json" ∈ words) then
      mkEff [Schedule service command (callback_json reactor service)] (Ok (Some true))
    else if bool_decide ("summary" ∈ words) then
      mkEff [Schedule service command (callback_summary reactor service limit)] (Ok (Some true))
    else if bool_decide ("extensive" ∈ words) then
      mkEff [Schedule service command (callback_extensive reactor service limit)] (Ok (Some true))
    else if bool_decide ("configuration" ∈ words) then
      mkEff [Schedule service command (callback_configuration reactor service limit)]
            (Ok (Some true))
    else
      mkEff [Write service "please specify summary, extensive or configuration";
             Write service "you can filter by peer ip address adding it after the word neighbor";
             AnswerDone service] (Ok None).
Proof.
  intros Hlast. unfold show_neighbor, limit_of, index_last. rewrite Hlast, lift_ok_bind.
  cbv zeta.
  destruct (bool_decide ("json" ∈ Py.split command)); [done|].
  destruct (bool_decide ("summary" ∈ Py.split command)); [done|].
  destruct (bool_decide ("extensive" ∈ Py.split command)); [done|].
  destruct (bool_decide ("configuration" ∈ Py.split command)); done.
Qed.

Lemma callback_summary_filter reactor service limit :
  limit ≠ "" →
  callback_summary reactor service limit
  = (gen_write service Neighbor.summary_header;;
     for_ (List.filter (λ peer_name, bool_decide (limit = neighbor_ip reactor peer_name))
                       (peers reactor))
          (summary_rows reactor service);;
     gen_answer_done service).
Proof.
  intros Hl. unfold callback_summary.
  rewrite (for_skip
    (λ peer_name, negb (bool_decide (limit = ""))
                  && negb (bool_decide (limit = neighbor_ip reactor peer_name)))
    (summary_rows reactor service)).
  rewrite (List.filter_ext _
    (λ peer_name, bool_decide (limit = neighbor_ip reactor peer_name))); [done|].
  intros peer_name. rewrite (bool_decide_eq_false_2 _ Hl). simpl. by rewrite negb_involutive.
Qed.

Lemma callback_extensive_filter reactor service limit :
  limit ≠ "" →
  callback_extensive reactor service limit
  = (for_ (List.filter (λ peer_name, Py.contains limit (neighbor_name reactor peer_name))
                       (peers reactor))
          (extensive_block reactor service);;
     gen_answer_done service).
Proof.
  intros Hl. unfold callback_extensive.
  rewrite (for_skip
    (λ peer_name, negb (bool_decide (limit = ""))
                  && negb (Py.contains limit (neighbor_name reactor peer_name)))
    (extensive_block reactor service)).
  rewrite (List.filter_ext _
    (λ peer_name, Py.contains limit (neighbor_name reactor peer_name))); [done|].
  intros peer_name. rewrite (bool_decide_eq_false_2 _ Hl). simpl. by rewrite negb_involutive.
Qed.

(** The words of [split] are not empty. *)
Lemma rev_string_nonempty acc s : acc ≠ EmptyString ∨ s ≠ EmptyString → Py.rev_string acc s ≠ EmptyString.
Proof.
  revert acc. induction s as [|a s IH]; intros acc [Ha|Hs]; simpl; try done.
  - apply IH. by left.
  - apply IH. by left.
Qed.

Lemma flush_nonempty cur k :
  Forall (λ w, w ≠ EmptyString) k → Forall (λ w, w ≠ EmptyString) (Py.flush cur k).
Proof.
  intros Hk. destruct cur as [|a cur]; [done|]. apply Forall_cons. split; [|done].
  apply rev_string_nonempty. by right.
Qed.

Lemma split_blank_nonempty cur s : Forall (λ w, w ≠ EmptyString) (Py.split_blank cur s).
Proof.
  revert cur. induction s as [|a s IH]; intros cur; simpl.
  - apply flush_nonempty. constructor.
  - destruct (Py.is_space a); [apply flush_nonempty|]; apply IH.
Qed.

Lemma remove_first_subseteq x y l : x ∈ remove_first y l → x ∈ l.
Proof.
  induction l as [|z l IH]; simpl; [done|].
  destruct (decide (z = y)); rewrite !elem_of_cons; [by right | intros [->|Hin]; auto].
Qed.

Lemma remaining_words_subseteq x words : x ∈ remaining_words words → x ∈ words.
Proof.
  unfold remaining_words.
  destruct (bool_decide ("json" ∈ words)), (bool_decide ("configuration" ∈ words)),
    (bool_decide ("extensive" ∈ words)), (bool_decide ("summary" ∈ words));
    intros Hin; repeat (apply remove_first_subseteq in Hin); done.
Qed.

Lemma last_elem_of {A} (l : list A) x : last l = Some x → x ∈ l.
Proof.
  induction l as [|y [|z l] IH]; simpl; [done | intros [= ->]; by left |].
  intros Hl. right. by apply IH.
Qed.

Lemma filter_nonempty command limit :
  last (remaining_words (Py.split command)) = Some limit → limit ≠ "".
Proof.
  intros Hl%last_elem_of%remaining_words_subseteq.
  pose proof (split_blank_nonempty EmptyString command) as Hne.
  rewrite Forall_forall in Hne. by apply Hne.
Qed.

(** C6.  For a command with a filter (the last of the words that remain,
    when it is not [neighbor]): the summary task writes the header, then
    the rows of the peers whose IP is the filter and of no other; the
    extensive task writes the blocks of the peers whose name has the
    filter as a substring and of no other; the json task does not read
    the filter, and dumps one object for every peer of the reactor. *)
Theorem show_neighbor_filter reactor service command limit :
  last (remaining_words (Py.split command)) = Some limit →
  limit ≠ "neighbor" →
  let words := Py.split command in
  ("json" ∉ words → "summary" ∈ words →
   show_neighbor reactor service command
   = mkEff [Schedule service command
              (gen_write service Neighbor.summary_header;;
               for_ (List.filter (λ peer_name, bool_decide (limit = neighbor_ip reactor peer_name))
                                 (peers reactor))
                    (summary_rows reactor service);;
               gen_answer_done service)]
           (Ok (Some true)))
  ∧ ("json" ∉ words → "summary" ∉ words → "extensive" ∈ words →
     show_neighbor reactor service command
     = mkEff [Schedule service command
                (for_ (List.filter (λ peer_name, Py.contains limit (neighbor_name reactor peer_name))
                                   (peers reactor))
                      (extensive_block reactor service);;
                 gen_answer_done service)]
             (Ok (Some true)))
  ∧ (∀ peer_name, Py.contains limit (neighbor_name reactor peer_name) = true
                  ↔ Spec.substring limit (neighbor_name reactor peer_name))
  ∧ ("json" ∈ words →
     show_neighbor reactor service command
     = mkEff [Schedule service command
                (for_ (Py.split_char Py.newline
                         (dumps (map (λ peer_name,
                                        Neighbor.as_dict (neighbor_cli_data reactor peer_name))
                                     (peers reactor))))
                      (λ line, gen_write service line;; gen_yield);;
                 gen_answer_done service)]
             (Ok (Some true))).
Proof.
  intros Hlast Hn words.
  pose proof (filter_nonempty _ _ Hlast) as He.
  assert (Hlimit : limit_of (Py.split command) = limit).
  { unfold limit_of. rewrite Hlast. by rewrite bool_decide_eq_true_2. }
  rewrite (show_neighbor_dispatch _ _ _ _ Hlast). cbv zeta. rewrite Hlimit.
  split_and!.
  - intros Hj Hs. rewrite (bool_decide_eq_false_2 _ Hj), (bool_decide_eq_true_2 _ Hs).
    by rewrite callback_summary_filter.
  - intros Hj Hs Hx.
    rewrite (bool_decide_eq_false_2 _ Hj), (bool_decide_eq_false_2 _ Hs),
      (bool_decide_eq_true_2 _ Hx).
    by rewrite callback_extensive_filter.
  - intros peer_name. apply contains_substring.
  - intros Hj. by rewrite (bool_decide_eq_true_2 _ Hj).
Qed.

(** Taking a word out of a list, by the number of times a word occurs. *)
Lemma count_occ_remove_first x y l :
  count_occ string_dec (remove_first y l) x
  = if decide (x = y) then pred (count_occ string_dec l x) else count_occ string_dec l x.
Proof.
  induction l as [|z l IH]; simpl; [by destruct (decide (x = y))|].
  destruct (decide (z = y)) as [Hzy|Hzy]; simpl.
  - destruct (string_dec z x) as [Hzx|Hzx]; destruct (decide (x = y)) as [Hxy|Hxy];
      try done; congruence.
  - rewrite IH. destruct (string_dec z x) as [Hzx|Hzx]; destruct (decide (x = y)) as [Hxy|Hxy];
      try done; congruence.
Qed.

Lemma count_occ_conditional_remove x y (b : bool) l :
  count_occ string_dec (if b then remove_first y l else l) x
  = if b && bool_decide (x = y) then pred (count_occ string_dec l x)
    else count_occ string_dec l x.
Proof.
  destruct b; simpl; [|done]. rewrite count_occ_remove_first.
  destruct (decide (x = y)) as [->|Hne];
    [by rewrite bool_decide_eq_true_2 | by rewrite bool_decide_eq_false_2].
Qed.

(** A mode written once at most is not among the words that remain. *)
Lemma remaining_words_no_mode words mode :
  mode ∈ Spec.modes → (count_occ string_dec words mode ≤ 1)%nat →
  mode ∉ remaining_words words.
Proof.
  intros Hm Hc. rewrite list_elem_of_In, (count_occ_not_In string_dec).
  unfold remaining_words. rewrite !count_occ_conditional_remove.
  assert (Hin : ∀ b : bool, (if b then pred (count_occ string_dec words mode)
                             else count_occ string_dec words mode) = 0%nat
                            ∨ (b = false ∧ bool_decide (mode ∈ words) = true)).
  { intros [|]; [left; lia|].
    destruct (bool_decide (mode ∈ words)) eqn:Hw; [by right | left].
    apply bool_decide_eq_false in Hw.
    by rewrite list_elem_of_In, (count_occ_not_In string_dec) in Hw. }
  unfold Spec.modes in Hm. rewrite !elem_of_cons in Hm.
  destruct Hm as [->|[->|[->|[->|Hm]]]]; [| | | |by apply elem_of_nil in Hm];
    simpl bool_decide; rewrite ?andb_false_r, ?andb_true_r;
    repeat match goal with
    | |- context [bool_decide (?m ∈ words)] =>
        destruct (bool_decide (m ∈ words)) eqn:?
    end; simpl; cbv iota; try lia;
    match goal with
    | Hw : bool_decide (_ ∈ words) = false |- _ =>
        apply bool_decide_eq_false in Hw;
        rewrite list_elem_of_In, (count_occ_not_In string_dec) in Hw; lia
    end.
Qed.

(** The first two words of a show neighbor command stay. *)
Lemma remaining_words_show_neighbor rest :
  ∃ rest', remaining_words ("show" :: "neighbor" :: rest) = "show" :: "neighbor" :: rest'.
Proof.
  unfold remaining_words.
  destruct (bool_decide ("json" ∈ _)), (bool_decide ("configuration" ∈ _)),
    (bool_decide ("extensive" ∈ _)), (bool_decide ("summary" ∈ _)); simpl; eauto.
Qed.

(** C7, amended.  A show neighbor command with at least one output mode
    among its words schedules one task and does nothing else: the task of
    the first mode it has in the order json, summary, extensive,
    configuration, with the filter that the remaining words give.  Each
    mode is taken out of the words once, at its first occurrence: when no
    mode is written twice, the filter is not a mode. *)
Theorem show_neighbor_precedence reactor service command rest mode :
  Py.split command = "show" :: "neighbor" :: rest →
  selected (Py.split command) = Some mode →
  show_neighbor reactor service command
  = mkEff [Schedule service command
             (mode_task reactor service (limit_of (Py.split command)) mode)]
          (Ok (Some true))
  ∧ (modes_once (Py.split command) → limit_of (Py.split command) ∉ Spec.modes).
Proof.
  intros Hwords Hsel. split.
  - destruct (remaining_words_show_neighbor rest) as [rest' Hrem].
    assert (Hlast : ∃ w, last (remaining_words (Py.split command)) = Some w).
    { rewrite Hwords, Hrem. change (is_Some (last ("show" :: "neighbor" :: rest'))).
      rewrite last_is_Some. done. }
    destruct Hlast as [w Hlast]. rewrite (show_neighbor_dispatch _ _ _ _ Hlast). cbv zeta.
    unfold selected in Hsel. simpl in Hsel.
    destruct (bool_decide ("json" ∈ Py.split command)); [by injection Hsel as <-|].
    destruct (bool_decide ("summary" ∈ Py.split command)); [by injection Hsel as <-|].
    destruct (bool_decide ("extensive" ∈ Py.split command)); [by injection Hsel as <-|].
    destruct (bool_decide ("configuration" ∈ Py.split command)); [by injection Hsel as <-|].
    done.
  - intros Honce Hin. unfold limit_of in Hin.
    destruct (last (remaining_words (Py.split command))) as [w|] eqn:Hlast;
      [|by vm_compute in Hin; repeat (apply elem_of_cons in Hin as [Hin|Hin]; [done|]);
          apply elem_of_nil in Hin].
    destruct (bool_decide (w ≠ "neighbor"));
      [|by repeat (apply elem_of_cons in Hin as [Hin|Hin]; [done|]); apply elem_of_nil in Hin].
    apply (remaining_words_no_mode (Py.split command) w Hin (Honce w Hin)).
    by apply last_elem_of.
Qed.

End ShowNeighbor.

Lemma show_neighbor_filter_witness :
  @show_neighbor Example.json Example.reactor "api" "show neighbor 10.0.0.2 summary"
  = mkEff [Schedule "api" "show neighbor 10.0.0.2 summary"
             (gen_write "api" Neighbor.summary_header;;
              for_ (List.filter (λ peer_name,
                                   bool_decide ("10.0.0.2" = neighbor_ip Example.reactor peer_name))
                                (peers Example.reactor))
                   (summary_rows Example.reactor "api");;
              gen_answer_done "api")]
          (Ok (Some true)).
Proof.
  refine (proj1 (@show_neighbor_filter Example.json Example.reactor "api"
                   "show neighbor 10.0.0.2 summary" "10.0.0.2" _ _) _ _).
  - reflexivity.
  - discriminate.
  - refine (bool_decide_unpack _ _). vm_compute. exact I.
  - refine (bool_decide_unpack _ _). vm_compute. exact I.
Defined.

Example show_neighbor_summary_filtered :
  @show_neighbor Example.json Example.reactor "api" "show neighbor 10.0.0.2 summary"
  = mkEff [Schedule "api" "show neighbor 10.0.0.2 summary"
             (mkEff [Wrote "api" Neighbor.summary_header;
                     Wrote "api" "10.0.0.2        65001     1:01:01 established          12       3456";
                     Yielded;
                     Answered "api"] (Ok tt))]
          (Ok (Some true)).
Proof. reflexivity. Qed.

Lemma show_neighbor_precedence_witness :
  @show_neighbor Example.json Example.reactor "api" "show neighbor summary json"
  = mkEff [Schedule "api" "show neighbor summary json"
             (@mode_task Example.json Example.reactor "api"
                (limit_of (Py.split "show neighbor summary json")) "json")]
          (Ok (Some true))
  ∧ (modes_once (Py.split "show neighbor summary json") →
     limit_of (Py.split "show neighbor summary json") ∉ Spec.modes).
Proof.
  apply (@show_neighbor_precedence Example.json Example.reactor "api"
           "show neighbor summary json" ["summary"; "json"] "json"); reflexivity.
Defined.

(** C7 as stated fails: with [summary extensive extensive] the summary
    task is scheduled, and the second [extensive] is its filter, so that
    no peer is shown where the summary without a filter shows them all. *)
Lemma repeated_mode_is_the_filter :
  @show_neighbor Example.json Example.reactor "api" "show neighbor summary extensive extensive"
  = mkEff [Schedule "api" "show neighbor summary extensive extensive"
             (callback_summary Example.reactor "api" "extensive")]
          (Ok (Some true))
  ∧ limit_of (Py.split "show neighbor summary extensive extensive") = "extensive"
  ∧ "extensive" ∈ Spec.modes
  ∧ callback_summary Example.reactor "api" "extensive"
    = mkEff [Wrote "api" Neighbor.summary_header; Answered "api"] (Ok tt)
  ∧ length (log (callback_summary Example.reactor "api" "")) = 8%nat.
Proof.
  split_and!; try reflexivity.
  refine (bool_decide_unpack _ _). vm_compute. exact I.
Qed.

(** * Further properties *)

(** ** The renderings of the flags *)

Section Flags.

Import Neighbor.

(** X1.  The add-path mode string tells the two directions apart: two
    pairs of flags give the same string exactly when they agree in truth
    on send and on receive; and [_en] gives three different strings for
    [None], [True] and [False]. *)
Theorem flag_renderings_faithful :
  (∀ send receive send' receive',
     _addpath send receive = _addpath send' receive'
     ↔ truth send = truth send' ∧ truth receive = truth receive')
  ∧ (∀ value value', _en value = _en value' ↔ value = value').
Proof.
  split.
  - intros s r s' r'. unfold _addpath.
    destruct (truth s), (truth r), (truth s'), (truth r'); simpl; split;
      (done || (intros [? ?]; done) || (intros Heq; discriminate Heq)).
  - intros [[|]|] [[|]|]; simpl; split; (done || (intros Heq; discriminate Heq)).
Qed.

End Flags.

(** ** [as_dict]: state, duration and the entries of the maps *)

Section AsDictEntries.

Import Neighbor.

(** X2.  [as_dict] reports the state [up] exactly when the duration of
    the snapshot is a number other than 0, a negative one included; the
    json duration is then that number, and otherwise it is the down time
    of the snapshot, whatever the duration was. *)
Theorem as_dict_state answer :
  (f_state (as_dict answer) = "up" ↔ ∃ n, duration answer = Some n ∧ n ≠ 0%Z)
  ∧ (f_state (as_dict answer) = "up" → f_duration (as_dict answer) = duration answer)
  ∧ (f_state (as_dict answer) ≠ "up" →
     f_state (as_dict answer) = "down" ∧ f_duration (as_dict answer) = down answer).
Proof.
  unfold as_dict; simpl. destruct (duration answer) as [n|]; simpl.
  - destruct (Z.eqb_spec n 0) as [->|Hn]; simpl.
    + split_and!; [split; [done | by intros (n & [= <-] & Hn)] | done | done].
    + split_and!; [split; [by exists n | done] | done | done].
  - split_and!; [split; [done | by intros (n & Hn & _)] | done | done].
Qed.

Lemma capabilities_loop_lookup items acc k l p :
  NoDup (map fst items) →
  (k, (l, p)) ∈ items →
  ca_local (fold_left capabilities_step items acc) !! k = Some l
  ∧ ca_peer (fold_left capabilities_step items acc) !! k = Some p.
Proof.
  revert acc. induction items as [|x items IH]; intros acc; [by intros _ ?%elem_of_nil|].
  simpl. rewrite NoDup_cons, elem_of_cons. intros [Hx Hnd] [<-|Hin]; [|by apply IH].
  clear IH Hnd. simpl in Hx.
  assert (Hkeep : ∀ acc',
    ca_local acc' !! k = Some l ∧ ca_peer acc' !! k = Some p →
    ca_local (fold_left capabilities_step items acc') !! k = Some l
    ∧ ca_peer (fold_left capabilities_step items acc') !! k = Some p).
  { induction items as [|[k' [l' p']] items IH]; intros acc' Hacc; [done|].
    simpl in Hx. rewrite not_elem_of_cons in Hx. destruct Hx as [Hne Hx].
    simpl. apply (IH Hx). simpl. by rewrite !lookup_insert_ne. }
  apply Hkeep. simpl. by rewrite !lookup_insert_eq.
Qed.

Lemma messages_loop_lookup items acc k s r :
  NoDup (map fst items) →
  (k, (s, r)) ∈ items →
  (fold_left messages_step items acc).1 !! k = Some s
  ∧ (fold_left messages_step items acc).2 !! k = Some r.
Proof.
  revert acc. induction items as [|x items IH]; intros acc; [by intros _ ?%elem_of_nil|].
  simpl. rewrite NoDup_cons, elem_of_cons. intros [Hx Hnd] [<-|Hin]; [|by apply IH].
  clear IH Hnd. simpl in Hx.
  assert (Hkeep : ∀ acc',
    acc'.1 !! k = Some s ∧ acc'.2 !! k = Some r →
    (fold_left messages_step items acc').1 !! k = Some s
    ∧ (fold_left messages_step items acc').2 !! k = Some r).
  { induction items as [|[k' [s' r']] items IH]; intros acc' Hacc; [done|].
    simpl in Hx. rewrite not_elem_of_cons in Hx. destruct Hx as [Hne Hx].
    simpl. apply (IH Hx). simpl. by rewrite !lookup_insert_ne. }
  apply Hkeep. simpl. by rewrite !lookup_insert_eq.
Qed.

Lemma messages_loop_keys items acc k :
  (is_Some ((fold_left messages_step items acc).1 !! k)
   ↔ is_Some (acc.1 !! k) ∨ k ∈ map fst items)
  ∧ (is_Some ((fold_left messages_step items acc).2 !! k)
     ↔ is_Some (acc.2 !! k) ∨ k ∈ map fst items).
Proof.
  revert acc. induction items as [|[k' [s r]] items IH]; intros acc; simpl.
  - split; (split; [by left | intros [?|?%elem_of_nil]; done]).
  - destruct (IH (messages_step acc (k', (s, r)))) as [IHs IHr].
    rewrite IHs, IHr. simpl. rewrite !lookup_insert_is_Some, !elem_of_cons.
    clear; split; (split; intros Hk; destruct (decide (k' = k)); intuition auto).
Qed.

(** X3.  When the keys ["AFI SAFI"] of the families of a snapshot are
    distinct, [as_dict] files the four flags of each family under its
    key: the first in the local families, the second in the peer
    families, the third in the local add-path map, the fourth in the
    peer add-path map, and the mode of the third and fourth in the
    top-level add-path map. *)
Theorem as_dict_family_entry answer a s l p aps apr :
  NoDup (map family_item_key (families answer)) →
  ((a, s), (l, p, aps, apr)) ∈ families answer →
  l_families (f_local (as_dict answer)) !! families_key a s = Some l
  ∧ p_families (f_peer (as_dict answer)) !! families_key a s = Some p
  ∧ l_add_path (f_local (as_dict answer)) !! families_key a s = Some aps
  ∧ p_add_path (f_peer (as_dict answer)) !! families_key a s = Some apr
  ∧ f_add_path (as_dict answer) !! families_key a s = Some (_addpath aps apr).
Proof.
  intros Hnd Hin. unfold as_dict; simpl. unfold families_loop.
  set (acc := {| fa_local := ∅ |}). clearbody acc. revert acc.
  induction (families answer) as [|x items IH]; intros acc; [by apply elem_of_nil in Hin|].
  simpl in Hnd. rewrite NoDup_cons in Hnd. destruct Hnd as [Hx Hnd].
  rewrite elem_of_cons in Hin. destruct Hin as [<-|Hin]; [|by apply IH].
  clear IH Hnd. simpl.
  assert (Hkeep : ∀ acc',
    fa_local acc' !! families_key a s = Some l
    ∧ fa_peer acc' !! families_key a s = Some p
    ∧ fa_local_add_path acc' !! families_key a s = Some aps
    ∧ fa_peer_add_path acc' !! families_key a s = Some apr
    ∧ fa_add_path acc' !! families_key a s = Some (_addpath aps apr) →
    fa_local (fold_left families_step items acc') !! families_key a s = Some l
    ∧ fa_peer (fold_left families_step items acc') !! families_key a s = Some p
    ∧ fa_local_add_path (fold_left families_step items acc') !! families_key a s = Some aps
    ∧ fa_peer_add_path (fold_left families_step items acc') !! families_key a s = Some apr
    ∧ fa_add_path (fold_left families_step items acc') !! families_key a s
      = Some (_addpath aps apr)).
  { induction items as [|[[a' s'] [[[l' p'] aps'] apr']] items IH]; intros acc' Hacc; [done|].
    simpl in Hx. rewrite not_elem_of_cons in Hx. destruct Hx as [Hne Hx].
    simpl. apply (IH Hx). simpl.
    change (family_item_key (a', s', (l', p', aps', apr'))) with (families_key a' s') in Hne.
    change (family_item_key (a, s, (l, p, aps, apr))) with (families_key a s) in Hne.
    by rewrite !lookup_insert_ne. }
  apply Hkeep. simpl. by rewrite !lookup_insert_eq.
Qed.

(** X4.  [as_dict] files the two flags of each capability and the two
    counters of each message type under their name, in the local and
    peer capabilities and in the sent and received messages; a message
    type that the snapshot does not have is in neither map of
    messages. *)
Theorem as_dict_capability_message_entry answer :
  NoDup (map fst (capabilities answer)) →
  NoDup (map fst (messages answer)) →
  (∀ k l p, (k, (l, p)) ∈ capabilities answer →
     l_capabilities (f_local (as_dict answer)) !! k = Some l
     ∧ p_capabilities (f_peer (as_dict answer)) !! k = Some p)
  ∧ (∀ k s r, (k, (s, r)) ∈ messages answer →
       f_messages_sent (as_dict answer) !! k = Some s
       ∧ f_messages_received (as_dict answer) !! k = Some r)
  ∧ (∀ k, k ∉ map fst (messages answer) →
       f_messages_sent (as_dict answer) !! k = None
       ∧ f_messages_received (as_dict answer) !! k = None).
Proof.
  intros Hc Hm. unfold as_dict; simpl. split_and!.
  - intros k l p Hin. by apply capabilities_loop_lookup.
  - intros k s r Hin. by apply messages_loop_lookup.
  - intros k Hk. unfold messages_loop.
    destruct (messages_loop_keys (messages answer) (∅, ∅) k) as [Hs Hr].
    simpl in Hs, Hr. rewrite lookup_empty in Hs, Hr.
    rewrite !eq_None_not_Some, Hs, Hr.
    split; intros [[? ?]|?]; done.
Qed.

End AsDictEntries.

Lemma as_dict_family_entry_witness :
  let answer := Example.answer "10.0.0.1" (Some 3661%Z) in
  Neighbor.l_families (Neighbor.f_local (Neighbor.as_dict answer))
    !! Neighbor.families_key "ipv6" "unicast" = Some (Some true)
  ∧ Neighbor.p_families (Neighbor.f_peer (Neighbor.as_dict answer))
      !! Neighbor.families_key "ipv6" "unicast" = Some None
  ∧ Neighbor.l_add_path (Neighbor.f_local (Neighbor.as_dict answer))
      !! Neighbor.families_key "ipv6" "unicast" = Some None
  ∧ Neighbor.p_add_path (Neighbor.f_peer (Neighbor.as_dict answer))
      !! Neighbor.families_key "ipv6" "unicast" = Some None
  ∧ Neighbor.f_add_path (Neighbor.as_dict answer)
      !! Neighbor.families_key "ipv6" "unicast" = Some (Neighbor._addpath None None).
Proof.
  apply (as_dict_family_entry (Example.answer "10.0.0.1" (Some 3661%Z))
           "ipv6" "unicast" (Some true) None None None).
  - repeat constructor; vm_compute; intros Hin;
      repeat (apply elem_of_cons in Hin as [Hin|Hin]; [discriminate Hin|]);
      by apply elem_of_nil in Hin.
  - right. left.
Defined.

Lemma as_dict_capability_message_entry_witness :
  let answer := Example.answer "10.0.0.1" (Some 3661%Z) in
  (∀ k l p, (k, (l, p)) ∈ Neighbor.capabilities answer →
     Neighbor.l_capabilities (Neighbor.f_local (Neighbor.as_dict answer)) !! k = Some l
     ∧ Neighbor.p_capabilities (Neighbor.f_peer (Neighbor.as_dict answer)) !! k = Some p)
  ∧ (∀ k s r, (k, (s, r)) ∈ Neighbor.messages answer →
       Neighbor.f_messages_sent (Neighbor.as_dict answer) !! k = Some s
       ∧ Neighbor.f_messages_received (Neighbor.as_dict answer) !! k = Some r)
  ∧ (∀ k, k ∉ map fst (Neighbor.messages answer) →
       Neighbor.f_messages_sent (Neighbor.as_dict answer) !! k = None
       ∧ Neighbor.f_messages_received (Neighbor.as_dict answer) !! k = None).
Proof.
  apply (as_dict_capability_message_entry (Example.answer "10.0.0.1" (Some 3661%Z))).
  - refine (bool_decide_unpack _ _). vm_compute. exact I.
  - refine (bool_decide_unpack _ _). vm_compute. exact I.
Defined.

(** ** When [extensive] and [summary] raise *)

Section RenderingErrors.

Import Neighbor.

Lemma getitem_missing {V} (d : list (string * V)) k :
  getitem d k = Raise KeyError ↔ k ∉ map fst d.
Proof.
  induction d as [|[k' v] d IH]; simpl.
  - split; [intros _; apply not_elem_of_nil | done].
  - rewrite not_elem_of_cons. destruct (decide (k' = k)) as [->|Hne].
    + split; [done | by intros [? _]].
    + rewrite IH. split; [by split | by intros [_ ?]].
Qed.

Lemma getitem_raises {V} (d : list (string * V)) k e : getitem d k = Raise e → e = KeyError.
Proof.
  induction d as [|[k' v] d IH]; simpl; [by intros [= <-]|].
  destruct (decide (k' = k)); [done | apply IH].
Qed.

(** X5.  [extensive] needs the number of seconds that [as_dict] gives as
    the json duration: where that is null (the duration is [None] or 0
    and the down time is [None]) it raises [TypeError]; where it is more
    than 999999999 days either way it raises [OverflowError]; everywhere
    else it returns a text. *)
Theorem extensive_raises answer :
  (f_duration (as_dict answer) = None → extensive answer = Raise TypeError)
  ∧ (∀ n, f_duration (as_dict answer) = Some n →
       (Z.abs (n / 86400) > Timedelta.max_days)%Z → extensive answer = Raise OverflowError)
  ∧ (∀ n, f_duration (as_dict answer) = Some n →
       (Z.abs (n / 86400) ≤ Timedelta.max_days)%Z → ∃ text, extensive answer = Ok text).
Proof.
  unfold as_dict, extensive; simpl.
  assert (Hof : ∀ n, (Z.abs (n / 86400) > Timedelta.max_days)%Z →
                     Timedelta.of_seconds n = Raise OverflowError).
  { intros n Hn. unfold Timedelta.of_seconds.
    destruct (Z.gtb_spec (Z.abs (n / 86400)) Timedelta.max_days); [done | lia]. }
  assert (Hok : ∀ n, (Z.abs (n / 86400) ≤ Timedelta.max_days)%Z →
                     ∃ d, Timedelta.of_seconds n = Ok d).
  { intros n Hn. unfold Timedelta.of_seconds.
    destruct (Z.gtb_spec (Z.abs (n / 86400)) Timedelta.max_days); [lia | by eexists]. }
  destruct (truth_seconds (duration answer)) eqn:Hup.
  - destruct (duration answer) as [m|]; [|done]. simpl. split_and!.
    + done.
    + intros n [= ->] Hn. by rewrite (Hof n Hn).
    + intros n [= ->] Hn. destruct (Hok n Hn) as [d ->]. by eexists.
  - destruct (down answer) as [m|]; simpl; split_and!.
    + done.
    + intros n [= ->] Hn. by rewrite (Hof n Hn).
    + intros n [= ->] Hn. destruct (Hok n Hn) as [d ->]. by eexists.
    + done.
    + done.
    + done.
Qed.

(** X6.  [summary] raises [OverflowError] exactly when the duration is a
    number other than 0 of more than 999999999 days either way, and
    [KeyError] exactly when it does not overflow and the messages of the
    snapshot have no [update] entry; it raises nothing else, and in
    particular returns a row for a snapshot with no down time, where
    [extensive] raises. *)
Theorem summary_raises answer :
  let overflow :=
    ∃ n, duration answer = Some n ∧ n ≠ 0%Z ∧ (Z.abs (n / 86400) > Timedelta.max_days)%Z in
  (summary answer = Raise OverflowError ↔ overflow)
  ∧ (summary answer = Raise KeyError
     ↔ ¬ overflow ∧ "update" ∉ map fst (messages answer))
  ∧ (∀ e, summary answer = Raise e → e = OverflowError ∨ e = KeyError).
Proof.
  intros overflow. unfold summary.
  assert (Hlast : ∀ updown : string,
    let r := (update ← getitem (messages answer) "update";
              mret (summary_template (peer_address answer) (_pr Py.str_N (peer_as answer))
                      updown (Py.lower (state answer)) update.1 update.2)) in
    (r = Raise KeyError ↔ "update" ∉ map fst (messages answer))
    ∧ (∀ e, r = Raise e → e = KeyError)).
  { intros updown. cbv zeta. rewrite <- getitem_missing.
    destruct (getitem (messages answer) "update") as [u|e] eqn:Hg; simpl.
    - split; [split; done | done].
    - apply getitem_raises in Hg as ->. split; [done | by intros e [= <-]]. }
  destruct (duration answer) as [n|] eqn:Hd; simpl.
  - destruct (Z.eqb_spec n 0) as [->|Hn]; simpl.
    + destruct (Hlast "down") as [Hk He]. split_and!.
      * split; [intros Hr; by apply He in Hr | by intros (m & [= <-] & Hm & _)].
      * rewrite Hk. split; [intros Hu; split; [by intros (m & [= <-] & Hm & _) | done]
                           | by intros [_ ?]].
      * intros e Hr. right. by apply He.
    + unfold Timedelta.of_seconds.
      destruct (Z.gtb_spec (Z.abs (n / 86400)) Timedelta.max_days) as [Hgt|Hle]; simpl.
      * split_and!.
        -- split; [intros _; exists n; split_and!; [done | done | lia] | done].
        -- split; [done | intros [Hno _]; destruct Hno; exists n; split_and!; [done|done|lia]].
        -- intros e [= <-]. by left.
      * match goal with |- context [summary_template _ _ ?u] => destruct (Hlast u) as [Hk He] end.
        split_and!.
        -- split; [intros Hr; by apply He in Hr | intros (m & [= <-] & _ & Hm); lia].
        -- rewrite Hk. split; [intros Hu; split; [intros (m & [= <-] & _ & Hm); lia | done]
                              | by intros [_ ?]].
        -- intros e Hr. right. by apply He.
  - destruct (Hlast "down") as [Hk He]. split_and!.
    + split; [intros Hr; by apply He in Hr | by intros (m & Hm & _)].
    + rewrite Hk. split; [intros Hu; split; [by intros (m & Hm & _) | done] | by intros [_ ?]].
    + intros e Hr. right. by apply He.
Qed.

Lemma length_lower s : String.length (Py.lower s) = String.length s.
Proof. induction s as [|a s IH]; simpl; [done | by rewrite IH]. Qed.

(** X7.  A row of [summary] is never narrower than the header, and is
    exactly as wide (68 columns) when each field fits its column: the
    address 15, the AS 7, the uptime 9, the state 12 and each count 10.
    The uptime is [down] when the duration is null or 0, and the duration
    as [timedelta] prints it otherwise. *)
Theorem summary_row_width answer row :
  summary answer = Ok row →
  ∃ updown update,
    (if truth_seconds (duration answer)
     then ∃ d, timedelta (duration answer) = Ok d ∧ updown = Timedelta.str d
     else updown = "down")
    ∧ getitem (messages answer) "update" = Ok update
    ∧ String.length row
      = (15 `max` String.length (peer_address answer)
         + 7 `max` String.length (_pr Py.str_N (peer_as answer))
         + 9 `max` String.length updown
         + 12 `max` String.length (state answer)
         + 10 `max` String.length (Py.str_N update.1)
         + 10 `max` String.length (Py.str_N update.2) + 5)%nat
    ∧ String.length summary_header = 68%nat
    ∧ (String.length summary_header ≤ String.length row)%nat
    ∧ ((String.length (peer_address answer) ≤ 15)%nat →
       (String.length (_pr Py.str_N (peer_as answer)) ≤ 7)%nat →
       (String.length updown ≤ 9)%nat →
       (String.length (state answer) ≤ 12)%nat →
       (String.length (Py.str_N update.1) ≤ 10)%nat →
       (String.length (Py.str_N update.2) ≤ 10)%nat →
       String.length row = 68%nat).
Proof.
  unfold summary. intros Hrow.
  assert (Hw : ∀ updown : string, ∀ update : N * N,
    String.length (summary_template (peer_address answer) (_pr Py.str_N (peer_as answer))
                     updown (Py.lower (state answer)) update.1 update.2)
    = (15 `max` String.length (peer_address answer)
       + 7 `max` String.length (_pr Py.str_N (peer_as answer))
       + 9 `max` String.length updown
       + 12 `max` String.length (state answer)
       + 10 `max` String.length (Py.str_N update.1)
       + 10 `max` String.length (Py.str_N update.2) + 5)%nat).
  { intros updown update. unfold summary_template.
    rewrite !length_append, !length_ljust, !length_rjust, length_lower. simpl. lia. }
  assert (Hh : String.length summary_header = 68%nat) by reflexivity.
  assert (Hup : ∀ updown,
    (if truth_seconds (duration answer)
     then d ← timedelta (duration answer); mret (Timedelta.str d)
     else mret "down") = Ok updown →
    if truth_seconds (duration answer)
    then ∃ d, timedelta (duration answer) = Ok d ∧ updown = Timedelta.str d
    else updown = "down").
  { intros updown. destruct (truth_seconds (duration answer)).
    - destruct (timedelta (duration answer)) as [d|e]; [|done].
      intros [= <-]. by exists d.
    - by intros [= <-]. }
  destruct (if truth_seconds (duration answer)
            then d ← timedelta (duration answer); mret (Timedelta.str d)
            else mret "down") as [updown|e] eqn:Hu; [|done].
  simpl in Hrow. destruct (getitem (messages answer) "update") as [update|e] eqn:Hg; [|done].
  simpl in Hrow. injection Hrow as <-. exists updown, update.
  rewrite Hw, Hh. split_and!; [by apply Hup | done | done | done | lia | lia].
Qed.

End RenderingErrors.

Lemma summary_row_width_witness :
  ∃ updown update,
    (if Neighbor.truth_seconds (Some 3661%Z)
     then ∃ d, Neighbor.timedelta (Some 3661%Z) = Ok d ∧ updown = Timedelta.str d
     else updown = "down")
    ∧ getitem (Neighbor.messages (Example.answer "10.0.0.1" (Some 3661%Z))) "update" = Ok update
    ∧ String.length "10.0.0.1        65001     1:01:01 established          12       3456"
      = (15 `max` String.length "10.0.0.1"
         + 7 `max` String.length (Neighbor._pr Py.str_N (Some 65001%N))
         + 9 `max` String.length updown
         + 12 `max` String.length "ESTABLISHED"
         + 10 `max` String.length (Py.str_N update.1)
         + 10 `max` String.length (Py.str_N update.2) + 5)%nat
    ∧ String.length Neighbor.summary_header = 68%nat
    ∧ (String.length Neighbor.summary_header
       ≤ String.length "10.0.0.1        65001     1:01:01 established          12       3456")%nat
    ∧ ((String.length "10.0.0.1" ≤ 15)%nat →
       (String.length (Neighbor._pr Py.str_N (Some 65001%N)) ≤ 7)%nat →
       (String.length updown ≤ 9)%nat →
       (String.length "ESTABLISHED" ≤ 12)%nat →
       (String.length (Py.str_N update.1) ≤ 10)%nat →
       (String.length (Py.str_N update.2) ≤ 10)%nat →
       String.length "10.0.0.1        65001     1:01:01 established          12       3456"
       = 68%nat).
Proof.
  apply (summary_row_width (Example.answer "10.0.0.1" (Some 3661%Z))). reflexivity.
Defined.

(** ** The tasks of [show neighbor] *)

Section Tasks.

Context `{Json}.

Lemma line_steps_app service l1 l2 :
  line_steps service (l1 ++ l2) = line_steps service l1 ++ line_steps service l2.
Proof. unfold line_steps. apply flat_map_app. Qed.

(** The inner loop of every task: a line, a yield. *)
Lemma write_lines service lines :
  for_ lines (λ line, gen_write service line;; gen_yield)
  = mkEff (line_steps service lines) (Ok tt).
Proof. by rewrite for_ok. Qed.

(** A loop of bodies that each write lines step by step does so too,
    up to the body that raises. *)
Lemma for_line_steps {A} service (l : list A) (body : A → Eff step unit) :
  (∀ x, ∃ lines, log (body x) = line_steps service lines) →
  ∃ lines, log (for_ l body) = line_steps service lines.
Proof.
  intros Hb. induction l as [|x l [ls IH]]; [by exists []|].
  rewrite for_cons. destruct (Hb x) as [lx Hx].
  destruct (outcome (body x)) as [[]|e] eqn:Ho.
  - rewrite (bind_ok _ _ tt) by done. simpl. exists (lx ++ ls).
    by rewrite line_steps_app, Hx, IH.
  - rewrite (bind_raise _ _ e) by done. simpl. by exists lx.
Qed.

Lemma rendered_lines service (r : Result string) :
  ∃ lines,
    log (text ← lift r;
         for_ (Py.split_char Py.newline text) (λ line, gen_write service line;; gen_yield))
    = line_steps service lines.
Proof.
  destruct r as [text|e].
  - rewrite lift_ok_bind, write_lines. by eexists.
  - rewrite lift_raise_bind. by exists [].
Qed.

Lemma then_answer_done service (c : Eff step unit) :
  log (c;; gen_answer_done service)
  = log c ++ match outcome c with Ok _ => [Answered service] | Raise _ => [] end
  ∧ outcome (c;; gen_answer_done service) = outcome c.
Proof.
  destruct (outcome c) as [[]|e] eqn:Ho.
  - by rewrite (bind_ok _ _ tt).
  - rewrite (bind_raise _ _ e) by done. simpl. by rewrite app_nil_r.
Qed.

(** X8.  Every task of [show neighbor] writes one line a step: each line
    is followed by a [yield], except the header of the summary, which is
    written in the step of the first row.  A task answers done once, as
    the last thing it does, when no rendering raises, and does not answer
    when one does.  The json task never raises. *)
Theorem tasks_write_one_line_a_step reactor service limit :
  callback_json reactor service
  = mkEff (line_steps service
             (Py.split_char Py.newline
                (dumps (map (λ peer_name, Neighbor.as_dict (neighbor_cli_data reactor peer_name))
                            (peers reactor))))
           ++ [Answered service]) (Ok tt)
  ∧ (∃ lines,
       log (callback_extensive reactor service limit)
       = line_steps service lines
         ++ match outcome (callback_extensive reactor service limit) with
            | Ok _ => [Answered service]
            | Raise _ => []
            end)
  ∧ (∃ lines,
       log (callback_summary reactor service limit)
       = Wrote service Neighbor.summary_header
         :: line_steps service lines
         ++ match outcome (callback_summary reactor service limit) with
            | Ok _ => [Answered service]
            | Raise _ => []
            end).
Proof.
  split_and!.
  - unfold callback_json. rewrite write_lines. by rewrite (bind_ok _ _ tt).
  - unfold callback_extensive.
    match goal with |- context [for_ ?l ?b] =>
      destruct (for_line_steps service l b) as [lines Hl];
      [|exists lines; destruct (then_answer_done service (for_ l b)) as [Hlog Hout];
        by rewrite Hlog, Hout, Hl]
    end.
    intros peer_name. destruct (_ && _); [by exists [] | apply rendered_lines].
  - unfold callback_summary.
    change (gen_write service Neighbor.summary_header)
      with (tell (Wrote service Neighbor.summary_header)).
    rewrite tell_bind.
    match goal with |- context [for_ ?l ?b] =>
      destruct (for_line_steps service l b) as [lines Hl];
      [|exists lines; destruct (then_answer_done service (for_ l b)) as [Hlog Hout];
        cbn [log outcome]; cbv beta; by rewrite Hlog, Hout, Hl]
    end.
    intros peer_name. destruct (_ && _); [by exists [] | apply rendered_lines].
Qed.

(** X9.  The configuration task shows the configured neighbors that are
    true values and, with a filter, whose name has the filter as a
    substring; it writes the lines of the text of each, one a step, then
    answers done.  It reads neither the peers of the reactor nor their
    sessions, and never raises. *)
Theorem callback_configuration_shows reactor service limit :
  callback_configuration reactor service limit
  = mkEff (line_steps service
             (flat_map (λ '(neighbor_name, neighbor),
                          match neighbor with
                          | Some text =>
                              if bool_decide (limit = "") || Py.contains limit neighbor_name
                              then Py.split_char Py.newline text else []
                          | None => []
                          end)
                       (configuration_neighbors reactor))
           ++ [Answered service]) (Ok tt).
Proof.
  unfold callback_configuration. rewrite for_ok.
  - rewrite (bind_ok _ _ tt) by done. unfold gen_answer_done, tell. cbn [log outcome].
    f_equal. f_equal. unfold line_steps. apply flat_map_flat_map. intros [neighbor_name [text|]]; [|done].
    destruct (bool_decide (limit = "")), (Py.contains limit neighbor_name);
      cbn [negb andb orb]; cbv iota; rewrite ?write_lines; done.
  - intros [neighbor_name [text|]] _; [|done].
    destruct (_ && _); [done | by rewrite write_lines].
Qed.

(** X10.  A command whose words, the modes taken out, end with
    [neighbor] has no filter: its summary task writes the rows of every
    peer of the reactor, and its extensive task the block of every
    peer. *)
Theorem show_neighbor_unfiltered reactor service command :
  last (remaining_words (Py.split command)) = Some "neighbor" →
  ("json" ∉ Py.split command → "summary" ∈ Py.split command →
   show_neighbor reactor service command
   = mkEff [Schedule service command
              (gen_write service Neighbor.summary_header;;
               for_ (peers reactor) (summary_rows reactor service);;
               gen_answer_done service)]
           (Ok (Some true)))
  ∧ ("json" ∉ Py.split command → "summary" ∉ Py.split command →
     "extensive" ∈ Py.split command →
     show_neighbor reactor service command
     = mkEff [Schedule service command
                (for_ (peers reactor) (extensive_block reactor service);;
                 gen_answer_done service)]
             (Ok (Some true))).
Proof.
  intros Hlast.
  assert (Hlimit : limit_of (Py.split command) = "").
  { unfold limit_of. by rewrite Hlast. }
  assert (Hall : ∀ l : list string, List.filter (λ _, negb false) l = l).
  { intros l. induction l as [|x l IH]; simpl; [done | f_equal; exact IH]. }
  rewrite (show_neighbor_dispatch _ _ _ _ Hlast). cbv zeta. rewrite Hlimit. split.
  - intros Hj Hs. rewrite (bool_decide_eq_false_2 _ Hj), (bool_decide_eq_true_2 _ Hs).
    unfold callback_summary.
    rewrite (for_skip (λ _, false) (summary_rows reactor service)). by rewrite Hall.
  - intros Hj Hs Hx.
    rewrite (bool_decide_eq_false_2 _ Hj), (bool_decide_eq_false_2 _ Hs),
      (bool_decide_eq_true_2 _ Hx).
    unfold callback_extensive.
    rewrite (for_skip (λ _, false) (extensive_block reactor service)). by rewrite Hall.
Qed.

(** X11.  [show neighbor] raises exactly when no word remains once the
    modes are taken out, as for the empty command or the command
    [summary json]: the exception is [IndexError], and nothing is
    written, answered or scheduled before it. *)
Theorem show_neighbor_raises reactor service command :
  (∀ e, outcome (show_neighbor reactor service command) = Raise e
        ↔ e = IndexError ∧ remaining_words (Py.split command) = [])
  ∧ (remaining_words (Py.split command) = [] →
     show_neighbor reactor service command = mkEff [] (Raise IndexError)).
Proof.
  assert (Hempty : remaining_words (Py.split command) = [] →
                   show_neighbor reactor service command = mkEff [] (Raise IndexError)).
  { intros Hr. unfold show_neighbor, index_last. cbv zeta. by rewrite Hr. }
  split; [|done]. intros e. split.
  - destruct (last (remaining_words (Py.split command))) as [w|] eqn:Hlast.
    + rewrite (show_neighbor_dispatch _ _ _ _ Hlast). cbv zeta.
      repeat (destruct (bool_decide _); [done|]). done.
    + apply last_None in Hlast. rewrite (Hempty Hlast). by intros [= <-].
  - intros [-> Hr]. by rewrite (Hempty Hr).
Qed.

(** X12.  A command with none of the four modes among its words, and
    at least one word, gets the two lines of usage and the answer done at
    once: nothing is scheduled, and the handler returns [None]. *)
Theorem show_neighbor_usage reactor service command :
  selected (Py.split command) = None →
  Py.split command ≠ [] →
  show_neighbor reactor service command
  = mkEff [Write service "please specify summary, extensive or configuration";
           Write service "you can filter by peer ip address adding it after the word neighbor";
           AnswerDone service] (Ok None).
Proof.
  intros Hsel Hne. unfold selected in Hsel. simpl in Hsel.
  destruct (bool_decide ("json" ∈ Py.split command)) eqn:Hj; [done|].
  destruct (bool_decide ("summary" ∈ Py.split command)) eqn:Hs; [done|].
  destruct (bool_decide ("extensive" ∈ Py.split command)) eqn:Hx; [done|].
  destruct (bool_decide ("configuration" ∈ Py.split command)) eqn:Hc; [done|].
  assert (Hrem : remaining_words (Py.split command) = Py.split command).
  { unfold remaining_words. by rewrite Hj, Hs, Hx, Hc. }
  destruct (last (Py.split command)) as [w|] eqn:Hlast;
    [|by apply last_None in Hlast].
  rewrite <- Hrem in Hlast. rewrite (show_neighbor_dispatch _ _ _ _ Hlast). cbv zeta.
  by rewrite Hj, Hs, Hx, Hc.
Qed.

End Tasks.

Lemma show_neighbor_unfiltered_witness :
  @show_neighbor Example.json Example.reactor "api" "show neighbor summary"
  = mkEff [Schedule "api" "show neighbor summary"
             (gen_write "api" Neighbor.summary_header;;
              for_ (peers Example.reactor) (summary_rows Example.reactor "api");;
              gen_answer_done "api")]
          (Ok (Some true)).
Proof.
  refine (proj1 (@show_neighbor_unfiltered Example.json Example.reactor "api"
                   "show neighbor summary" _) _ _).
  - reflexivity.
  - refine (bool_decide_unpack _ _). vm_compute. exact I.
  - refine (bool_decide_unpack _ _). vm_compute. exact I.
Defined.

Lemma show_neighbor_usage_witness :
  @show_neighbor Example.json Example.reactor "api" "show neighbor 10.0.0.1"
  = mkEff [Write "api" "please specify summary, extensive or configuration";
           Write "api" "you can filter by peer ip address adding it after the word neighbor";
           AnswerDone "api"] (Ok None).
Proof.
  apply (@show_neighbor_usage Example.json Example.reactor "api" "show neighbor 10.0.0.1").
  - reflexivity.
  - discriminate.
Defined.

(** ** [teardown]: the answer and the exceptions *)

Section TeardownAnswers.

Context `{Py.Interpreter} `{Limit}.

(** X13.  The handler raises exactly when [extract_neighbors] raises
    something other than [ValueError] and [IndexError]: that exception
    leaves the handler as it is, and no answer is written to the
    service.  The [ValueError] of [int] on a code that passes [isdigit]
    is caught like that of [extract_neighbors]. *)
Theorem teardown_propagates reactor service line :
  (∀ e, outcome (teardown reactor service line) = Raise e
        ↔ extract_neighbors line = Raise e ∧ e ≠ ValueError ∧ e ≠ IndexError)
  ∧ (∀ e, outcome (teardown reactor service line) = Raise e →
          log (teardown reactor service line) = []).
Proof.
  destruct (teardown_cases reactor service line)
    as [(e' & Hx & Hv & Hi & Ht)|[[Hr Ht]|(Hr & ds & rest & n & Hx & Ht)]]; rewrite Ht; simpl.
  - split; [|done]. intros e. rewrite Hx. split.
    + by intros [= <-].
    + by intros [[= <-] _].
  - split; [|done]. intros e. split; [done|]. intros (Hx & Hv & Hi).
    unfold rejected in Hr. rewrite Hx in Hr. tauto.
  - split; [|done]. intros e. split; [done|]. rewrite Hx. by intros [? _].
Qed.

(** X14.  Whenever the handler returns, it has written one answer to
    the service, as the last thing it did: done when it returns [True],
    error when it returns [False], and in that case it did nothing
    else. *)
Theorem teardown_answers_once reactor service line b :
  outcome (teardown reactor service line) = Ok b →
  ∃ before,
    log (teardown reactor service line)
    = before ++ [if b then AnswerDone service else AnswerError service]
    ∧ Forall (λ e, is_answer e = false) before
    ∧ (b = false → before = []).
Proof.
  destruct (teardown_cases reactor service line)
    as [(e' & Hx & Hv & Hi & Ht)|[[Hr Ht]|(Hr & ds & rest & n & Hx & Ht)]]; rewrite Ht; simpl.
  - done.
  - intros [= <-]. by exists [].
  - intros [= <-]. eexists. split_and!; [done | | done].
    apply Forall_forall. intros e Hin%teardown_events_kind.
    by destruct e.
Qed.

End TeardownAnswers.

Lemma teardown_answers_once_witness :
  ∃ before,
    log (@teardown Example.interpreter Example.limit Example.reactor "api" "teardown * 3")
    = before ++ [AnswerDone "api"]
    ∧ Forall (λ e, is_answer e = false) before
    ∧ (true = false → before = []).
Proof.
  apply (@teardown_answers_once Example.interpreter Example.limit Example.reactor "api"
           "teardown * 3" true).
  reflexivity.
Defined.

Example teardown_every_peer :
  @teardown Example.interpreter Example.limit Example.reactor "api" "teardown * 3"
  = mkEff [TeardownPeer "10.0.0.1" 3; LogMessage "teardown scheduled for *";
           TeardownPeer "10.0.0.2" 3; LogMessage "teardown scheduled for *";
           AnswerDone "api"] (Ok true).
Proof. reflexivity. Qed.

(** ** Decimal numerals *)

Section Decimal.

Lemma is_nat_digit_char k :
  (k < 10)%nat → Ascii.is_nat (Py.digit_char (N.of_nat k)) = Some k.
Proof. intros Hk. do 10 (destruct k as [|k]; [reflexivity|]). lia. Qed.

Lemma int_from_digit a d rest :
  (d < 10)%N →
  Py.int_from a (String (Py.digit_char d) rest) = Py.int_from (10 * a + d) rest.
Proof.
  intros Hd. simpl. rewrite <- (N2Nat.id d) at 1.
  rewrite is_nat_digit_char by lia. by rewrite N2Nat.id.
Qed.

(** Reading what [dec_pos] prints gives the number back, in front of
    what follows. *)
Lemma int_from_dec_pos fuel n rest :
  (n < 2 ^ N.of_nat fuel)%N →
  ∃ k, ∀ a, Py.int_from a (Py.dec_pos fuel n rest) = Py.int_from (a * 10 ^ k + n) rest.
Proof.
  revert n rest. induction fuel as [|fuel IH]; intros n rest Hn.
  - exists 0%N. intros a. simpl in *. f_equal. lia.
  - simpl Py.dec_pos. destruct (N.ltb_spec n 10) as [Hlt|Hge].
    + exists 1%N. intros a. rewrite N.mod_small by done.
      rewrite int_from_digit by done. f_equal. lia.
    + destruct (IH (n / 10)%N (String (Py.digit_char (n mod 10)) rest)) as [k Hk].
      { rewrite Nat2N.inj_succ, N.pow_succ_r' in Hn.
        apply N.Div0.div_lt_upper_bound. lia. }
      exists (k + 1)%N. intros a. rewrite Hk.
      rewrite int_from_digit by (apply N.mod_lt; lia). f_equal.
      rewrite N.pow_add_r, N.pow_1_r.
      pose proof (N.div_mod n 10). lia.
Qed.

Lemma dec_pos_nonempty fuel n rest :
  Py.dec_pos (S fuel) n rest ≠ EmptyString.
Proof.
  revert n rest. induction fuel as [|fuel IH]; intros n rest; simpl.
  - by destruct (n <? 10)%N.
  - destruct (n <? 10)%N; [done|]. apply (IH (n / 10)%N).
Qed.

Lemma log2_fuel n : (n < 2 ^ N.of_nat (S (N.to_nat (N.log2 n))))%N.
Proof.
  rewrite Nat2N.inj_succ, N2Nat.id.
  destruct (N.eq_dec n 0%N) as [->|Hn]; [done|].
  apply N.log2_spec. lia.
Qed.

Lemma int_from_Some_decimal s acc m :
  Py.int_from acc s = Some m → Forall Spec.decimal_digit (Spec.chars s).
Proof.
  revert acc. induction s as [|a s IH]; intros acc; unfold Spec.chars in *; simpl.
  - intros _. constructor.
  - destruct (Ascii.is_nat a) as [d|] eqn:Ha; [|done]. intros Hs.
    apply Forall_cons. split; [|by eapply IH].
    apply is_decimal_spec. unfold Py.is_decimal. by rewrite Ha.
Qed.

(** What [str] prints for a number is all decimal digits, and writes that
    number. *)
Lemma str_N_decimal n : Spec.decimal (Py.str_N n) ∧ Spec.value (Py.str_N n) = n.
Proof.
  unfold Py.str_N.
  pose proof (dec_pos_nonempty (N.to_nat (N.log2 n)) n EmptyString) as Hne.
  destruct (int_from_dec_pos _ n EmptyString (log2_fuel n)) as [k Hk].
  specialize (Hk 0%N). change (Py.int_from ?a EmptyString) with (Some a) in Hk.
  set (s := Py.dec_pos _ n EmptyString) in *. clearbody s.
  pose proof (int_from_Some_decimal s 0 _ Hk) as Hd.
  split; [by split|].
  rewrite (int_from_value s 0 Hd) in Hk. injection Hk as Hk. lia.
Qed.

(** X15.  A code written as [str] prints a number, of no more digits
    than the interpreter converts, is accepted and is read back as that
    number: the handler asks [teardown_peer] for the number printed, for
    every matching pair, and answers done. *)
Theorem teardown_decimal_code `{Py.Interpreter} `{Limit}
    reactor service line descriptions verb n :
  extract_neighbors line = Ok (descriptions, verb +:+ String Py.space (Py.str_N n)) →
  Py.space ∉ Spec.chars verb →
  Spec.within_limit (Py.str_N n) →
  teardown reactor service line
  = mkEff (flat_map (teardown_events n) (matching reactor descriptions)
             ++ [AnswerDone service]) (Ok true).
Proof.
  intros Hx Hv Hl.
  assert (Hseg : Spec.code_segment (verb +:+ String Py.space (Py.str_N n)) (Py.str_N n))
    by (by exists verb).
  destruct (code_segment_split _ _ Hseg) as [Hc [verb' Hs]].
  destruct (str_N_decimal n) as [Hdec Hval].
  apply (teardown_parsed reactor service line descriptions
           (verb +:+ String Py.space (Py.str_N n)) verb' (Py.str_N n) n); try done.
  - apply isdigit_spec. by apply decimal_digits.
  - rewrite <- Hval at 2. apply int_converts. by split.
Qed.

End Decimal.

Lemma teardown_decimal_code_witness :
  @teardown Example.interpreter Example.limit Example.reactor "api" "teardown 10.0.0.2 65535"
  = mkEff [TeardownPeer "10.0.0.2" 65535;
           LogMessage "teardown scheduled for 10.0.0.2";
           AnswerDone "api"] (Ok true).
Proof.
  refine (@teardown_decimal_code Example.interpreter Example.limit Example.reactor "api"
            "teardown 10.0.0.2 65535" [["10.0.0.2"]] "teardown" 65535%N _ _ _).
  - reflexivity.
  - refine (bool_decide_unpack _ _). vm_compute. exact I.
  - right. vm_compute. lia.
Defined.

(** ** [SectionFamily._add]: what it keeps and how calls compose *)

Section FamilyInvariants.

Import Family.
Context `{Protocol} `{Engine}.

(** The loop over two lists in a row is the loop over the first, then,
    unless it raised, over the second. *)
Lemma _add_loop_app afi_name names1 names2 known :
  run (_add_loop afi_name (names1 ++ names2)) known
  = match run (_add_loop afi_name names1) known with
    | (known', Ok _) => run (_add_loop afi_name names2) known'
    | (known', Raise e) => (known', Raise e)
    end.
Proof.
  revert known. induction names1 as [|safi_name names1 IH]; intros known; [done|].
  change ((safi_name :: names1) ++ names2) with (safi_name :: (names1 ++ names2)).
  rewrite !_add_loop_cons.
  destruct (bool_decide (safi_name ∉ implemented_safi afi_name)); [done|].
  destruct (bool_decide (SAFI_value safi_name ∈ known)); [done|]. apply IH.
Qed.

(** Whatever its outcome, the loop appends to [known] the SAFI of some
    of the first names, each new where it is appended. *)
Lemma _add_loop_appends afi_name names known :
  ∃ added,
    (run (_add_loop afi_name names) known).1 = known ++ added
    ∧ (NoDup known → NoDup (known ++ added))
    ∧ ((run (_add_loop afi_name names) known).2 = Ok tt → added = map SAFI_value names).
Proof.
  revert known. induction names as [|safi_name names IH]; intros known.
  - exists []. by rewrite app_nil_r.
  - rewrite _add_loop_cons.
    destruct (bool_decide (safi_name ∉ implemented_safi afi_name));
      [exists []; by rewrite app_nil_r|].
    destruct (bool_decide (SAFI_value safi_name ∈ known)) eqn:Hin;
      [exists []; by rewrite app_nil_r|].
    apply bool_decide_eq_false in Hin.
    destruct (IH (known ++ [SAFI_value safi_name])) as (added & Hrun & Hnd & Hok).
    exists (SAFI_value safi_name :: added). split_and!.
    + rewrite Hrun. by rewrite <- app_assoc.
    + intros Hk. change (SAFI_value safi_name :: added) with ([SAFI_value safi_name] ++ added).
      rewrite app_assoc. apply Hnd.
      apply NoDup_app. split_and!; [done | | apply NoDup_singleton].
      intros x Hx ->%list_elem_of_singleton. done.
    + intros Hr. simpl. by rewrite (Hok Hr).
Qed.

Lemma _add_loop_ok afi_name names known :
  (run (_add_loop afi_name names) known).2 = Ok tt
  ↔ Forall (λ safi_name, safi_name ∈ implemented_safi afi_name) names
    ∧ NoDup (map SAFI_value names)
    ∧ (∀ safi, safi ∈ map SAFI_value names → safi ∉ known).
Proof.
  split.
  - revert known. induction names as [|safi_name names IH]; intros known.
    + intros _. split_and!; [constructor | constructor | by intros ? ?%elem_of_nil].
    + rewrite _add_loop_cons.
      destruct (bool_decide (safi_name ∉ implemented_safi afi_name)) eqn:Hi; [done|].
      destruct (bool_decide (SAFI_value safi_name ∈ known)) eqn:Hk; [done|].
      apply bool_decide_eq_false in Hi, Hk.
      intros (Himp & Hnd & Hnew)%IH. split_and!.
      * apply Forall_cons. split; [|done].
        destruct (decide (safi_name ∈ implemented_safi afi_name)); [done | by destruct Hi].
      * simpl. apply NoDup_cons. split; [|done]. intros Hin.
        apply (Hnew _ Hin). apply elem_of_app. right. by left.
      * intros safi. simpl. rewrite elem_of_cons. intros [->|Hin]; [done|].
        intros Hk'. apply (Hnew _ Hin). apply elem_of_app. by left.
  - intros (Himp & Hnd & Hnew).
    pose proof (_add_loop_accepts afi_name names [] known Himp Hnd Hnew) as Hrun.
    rewrite app_nil_r in Hrun. by rewrite Hrun.
Qed.

(** X16.  A call of [_add] that passes the inherited check returns
    exactly when every name is implemented for the AFI and the SAFI of
    the names are distinct and not yet recorded for the AFI; the
    declaration then holds, for the AFI, what it held followed by those
    SAFI in the order of the call. *)
Theorem add_returns_iff afi_name safi_names (content : Content) :
  _check_duplicate content = None →
  let known := default [] (content !! AFI_value afi_name) in
  ((run (_add afi_name safi_names) content).2 = Ok tt
   ↔ Forall (λ safi_name, safi_name ∈ implemented_safi afi_name) safi_names
     ∧ NoDup (map SAFI_value safi_names)
     ∧ (∀ safi, safi ∈ map SAFI_value safi_names → safi ∉ known))
  ∧ ((run (_add afi_name safi_names) content).2 = Ok tt →
     (run (_add afi_name safi_names) content).1
     = <[AFI_value afi_name := known ++ map SAFI_value safi_names]> content).
Proof.
  intros Hcheck. cbv zeta. unfold _add. cbn [run]. rewrite Hcheck.
  pose proof (_add_loop_ok afi_name safi_names
                (default [] (content !! AFI_value afi_name))) as Hok.
  destruct (_add_loop_appends afi_name safi_names
              (default [] (content !! AFI_value afi_name))) as (added & Hk & _ & Ha).
  destruct (run (_add_loop afi_name safi_names) (default [] (content !! AFI_value afi_name)))
    as [known' r]. cbn [fst snd] in *.
  split; [done|]. intros Hr. by rewrite Hk, (Ha Hr).
Qed.

(** X17.  Whatever its outcome, a call of [_add] removes no recorded
    pair and leaves the entries of the other AFI as they are. *)
Theorem add_keeps_recorded afi_name safi_names (content : Content) :
  (∀ a s, recorded content a s →
          recorded (run (_add afi_name safi_names) content).1 a s)
  ∧ (∀ a, a ≠ AFI_value afi_name →
          (run (_add afi_name safi_names) content).1 !! a = content !! a).
Proof.
  unfold _add. simpl. destruct (_check_duplicate content) as [message|]; [done|].
  destruct (_add_loop_appends afi_name safi_names
              (default [] (content !! AFI_value afi_name))) as (added & Hk & _ & _).
  destruct (run (_add_loop afi_name safi_names) _) as [known' r]. simpl in *. subst known'.
  split.
  - intros a s (known & Hl & Hin). apply recorded_insert.
    destruct (decide (a = AFI_value afi_name)) as [->|Hne].
    + left. split; [done|]. rewrite Hl. simpl. apply elem_of_app. by left.
    + right. split; [done|]. by exists known.
  - intros a Hne. by rewrite lookup_insert_ne.
Qed.

(** X18.  When no entry of the declaration lists a SAFI twice, none does
    after a call of [_add], whatever its outcome. *)
Theorem add_keeps_no_duplicate afi_name safi_names (content : Content) :
  (∀ a known, content !! a = Some known → NoDup known) →
  ∀ a known, (run (_add afi_name safi_names) content).1 !! a = Some known → NoDup known.
Proof.
  intros Hinv. unfold _add. simpl. destruct (_check_duplicate content) as [message|]; [done|].
  destruct (_add_loop_appends afi_name safi_names
              (default [] (content !! AFI_value afi_name))) as (added & Hk & Hnd & _).
  destruct (run (_add_loop afi_name safi_names) _) as [known' r]. simpl in *. subst known'.
  intros a known. destruct (decide (a = AFI_value afi_name)) as [->|Hne].
  - rewrite lookup_insert_eq. intros [= <-]. apply Hnd.
    destruct (content !! AFI_value afi_name) as [k|] eqn:Hl; simpl;
      [by apply (Hinv _ _ Hl) | constructor].
  - rewrite lookup_insert_ne by done. apply Hinv.
Qed.

(** X19.  Two calls of [_add] for one AFI, the first of which returns,
    leave the declaration and end as the one call with the two lists of
    names in a row does, when the inherited check lets the calls
    through. *)
Theorem add_twice afi_name names1 names2 (content : Content) :
  _check_duplicate content = None →
  (run (_add afi_name names1) content).2 = Ok tt →
  _check_duplicate (run (_add afi_name names1) content).1 = None →
  run (_add afi_name names1;; _add afi_name names2) content
  = run (_add afi_name (names1 ++ names2)) content.
Proof.
  intros Hcheck. unfold mbind, state_bind. cbn [run].
  unfold _add at 1 2 3. cbn [run]. rewrite Hcheck.
  destruct (run (_add_loop afi_name names1) (default [] (content !! AFI_value afi_name)))
    as [known1 r1] eqn:Hrun1. cbn [fst snd].
  intros -> Hcheck1. unfold _add. cbn [run]. rewrite Hcheck, Hcheck1.
  rewrite lookup_insert_eq. cbn [default]. change (id known1) with known1.
  rewrite _add_loop_app, Hrun1.
  destruct (run (_add_loop afi_name names2) known1) as [known2 r2].
  by rewrite insert_insert_eq.
Qed.

End FamilyInvariants.

Lemma add_returns_iff_witness :
  let known := default [] ((∅ : gmap N (list N)) !! Family.AFI_value (Protocol := Example.protocol) "ipv6") in
  ((run (@Family._add Example.protocol Example.engine "ipv6" ["unicast"; "flow"]) ∅).2 = Ok tt
   ↔ Forall (λ safi_name, safi_name ∈ Family.implemented_safi (Protocol := Example.protocol) "ipv6")
            ["unicast"; "flow"]
     ∧ NoDup (map (Family.SAFI_value (Protocol := Example.protocol)) ["unicast"; "flow"])
     ∧ (∀ safi, safi ∈ map (Family.SAFI_value (Protocol := Example.protocol)) ["unicast"; "flow"]
                → safi ∉ known))
  ∧ ((run (@Family._add Example.protocol Example.engine "ipv6" ["unicast"; "flow"]) ∅).2 = Ok tt →
     (run (@Family._add Example.protocol Example.engine "ipv6" ["unicast"; "flow"]) ∅).1
     = <[Family.AFI_value (Protocol := Example.protocol) "ipv6" :=
           known ++ map (Family.SAFI_value (Protocol := Example.protocol)) ["unicast"; "flow"]]> ∅).
Proof.
  apply (@add_returns_iff Example.protocol Example.engine "ipv6" ["unicast"; "flow"] ∅).
  reflexivity.
Defined.

Lemma add_keeps_no_duplicate_witness :
  (run (@Family._add Example.protocol Example.engine "ipv4" ["unicast"; "flow"; "unicast"]) ∅).1
    !! 1%N = Some [1; 133]%N
  ∧ NoDup [1; 133]%N.
Proof.
  split; [reflexivity|].
  assert (Hinv : ∀ a known, (∅ : gmap N (list N)) !! a = Some known → NoDup known).
  { intros a known Hl. rewrite lookup_empty in Hl. discriminate Hl. }
  apply (@add_keeps_no_duplicate Example.protocol Example.engine
           "ipv4" ["unicast"; "flow"; "unicast"] ∅ Hinv 1%N [1; 133]%N).
  reflexivity.
Defined.

Lemma add_twice_witness :
  run (@Family._add Example.protocol Example.engine "ipv4" ["unicast"];;
       @Family._add Example.protocol Example.engine "ipv4" ["flow"; "unicast"]) ∅
  = run (@Family._add Example.protocol Example.engine "ipv4" (["unicast"] ++ ["flow"; "unicast"])) ∅.
Proof.
  apply (@add_twice Example.protocol Example.engine "ipv4" ["unicast"] ["flow"; "unicast"] ∅);
    reflexivity.
Defined.

Example ipv4_twice :
  run (@Family.ipv4 Example.protocol Example.engine ["unicast"];;
       @Family.ipv4 Example.protocol Example.engine ["flow"; "unicast"]) ∅
  = ({[1%N := [1; 133]%N]}, Raise (RaisedFamily Family.already_defined_message)).
Proof. reflexivity. Qed.

(** ** [syslog-1.py]: the loop over the lines of standard input *)

Section SyslogLoop.

Import Syslog.
Context `{Os}.

Lemma loop_blank counter reading raw stdin :
  blank raw →
  loop counter reading (raw :: stdin)
  = if (100 <? S counter)%nat then {| alerts := []; readlines := 1 |}
    else {| alerts := alerts (loop (S counter) reading stdin);
            readlines := S (readlines (loop (S counter) reading stdin)) |}.
Proof. intros Hb. simpl. by rewrite (bool_decide_eq_true_2 _ Hb). Qed.

Lemma loop_line counter reading raw stdin :
  ¬ blank raw →
  loop counter reading (raw :: stdin)
  = {| alerts := _prefixed (S reading) "INFO" (Py.strip raw)
                   :: alerts (loop 0 (reading + 2) stdin);
       readlines := S (readlines (loop 0 (reading + 2) stdin)) |}.
Proof. intros Hb. simpl. by rewrite (bool_decide_eq_false_2 _ Hb). Qed.

(** X20.  The script stops at the 101st blank line in a row: it logs
    nothing for these lines and reads nothing after them, whatever
    follows. *)
Theorem loop_stops_after_101_blanks counter reading blanks rest :
  Forall blank blanks →
  (counter ≤ 100)%nat →
  (counter + length blanks = 101)%nat →
  loop counter reading (blanks ++ rest) = {| alerts := []; readlines := length blanks |}.
Proof.
  revert counter. induction blanks as [|raw blanks IH]; intros counter Hb Hc Hl.
  - simpl in Hl. lia.
  - apply Forall_cons in Hb as [Hraw Hb]. simpl in Hl.
    change ((raw :: blanks) ++ rest) with (raw :: (blanks ++ rest)).
    rewrite (loop_blank _ _ _ _ Hraw).
    destruct (Nat.ltb_spec 100 (S counter)) as [Hgt|Hle].
    + assert (length blanks = 0%nat) as Hz by lia. simpl. by rewrite Hz.
    + rewrite (IH (S counter)) by (done || lia). done.
Qed.

(** X21.  Up to 100 blank lines in a row are skipped: the line that
    follows them is logged stripped, at level INFO with the second
    reading of the clock, and the count of blank lines starts again
    from 0. *)
Theorem loop_skips_blanks counter reading blanks raw rest :
  Forall blank blanks →
  (counter + length blanks ≤ 100)%nat →
  ¬ blank raw →
  loop counter reading (blanks ++ raw :: rest)
  = {| alerts := _prefixed (S reading) "INFO" (Py.strip raw)
                   :: alerts (loop 0 (reading + 2) rest);
       readlines := length blanks + S (readlines (loop 0 (reading + 2) rest)) |}.
Proof.
  revert counter. induction blanks as [|b blanks IH]; intros counter Hb Hl Hraw.
  - by apply loop_line.
  - apply Forall_cons in Hb as [Hb1 Hb]. simpl in Hl.
    change ((b :: blanks) ++ raw :: rest) with (b :: (blanks ++ raw :: rest)).
    rewrite (loop_blank _ _ _ _ Hb1).
    destruct (Nat.ltb_spec 100 (S counter)) as [Hgt|Hle]; [lia|].
    rewrite (IH (S counter)) by (done || lia). done.
Qed.

(** X22.  When the input never has more than 100 blank lines in a row,
    the script logs every line that is not blank, stripped, once, in the
    order of the input, and nothing else. *)
Theorem loop_logs_every_line counter reading stdin :
  short_blank_runs counter stdin = true →
  alerts (loop counter reading stdin)
  = stamped reading
      (List.filter (λ line, negb (bool_decide (line = ""))) (map Py.strip stdin)).
Proof.
  revert counter reading. induction stdin as [|raw stdin IH]; intros counter reading; [done|].
  simpl short_blank_runs. simpl map. simpl List.filter.
  destruct (decide (blank raw)) as [Hb|Hb].
  - rewrite (bool_decide_eq_true_2 _ Hb), (loop_blank _ _ _ _ Hb).
    unfold blank in Hb. rewrite (bool_decide_eq_true_2 _ Hb). simpl negb. cbv iota.
    intros [Hle Hrest]%andb_true_iff. apply Nat.leb_le in Hle.
    destruct (Nat.ltb_spec 100 (S counter)) as [Hgt|_]; [lia|]. simpl. by apply IH.
  - rewrite (bool_decide_eq_false_2 _ Hb), (loop_line _ _ _ _ Hb).
    unfold blank in Hb. rewrite (bool_decide_eq_false_2 _ Hb). simpl negb. cbv iota.
    intros Hrest. simpl. f_equal. by apply IH.
Qed.







(** X25.  In a line of [_prefixed] the message comes last, after the
    time, the level and the process number; it starts 17 columns after
    the time when the level has 8 characters at most and the process
    number 6 digits at most. *)
Theorem prefixed_message_column reading level message :
  (String.length level ≤ 8)%nat →
  (String.length (Py.str_Z getpid) ≤ 6)%nat →
  ∃ head,
    _prefixed reading level message = strftime reading +:+ head +:+ message
    ∧ String.length head = 17%nat.
Proof.
  intros Hl Hp.
  exists (" " +:+ Py.ljust 8 level +:+ " " +:+ Py.ljust 6 (Py.str_Z getpid) +:+ " ").
  split.
  - unfold _prefixed. by rewrite !append_assoc.
  - rewrite !length_append, !length_ljust. simpl. lia.
Qed.

End SyslogLoop.

Lemma loop_stops_after_101_blanks_witness :
  @Syslog.loop Example.os 0 0 (replicate 101 " " ++ ["neighbor up"])
  = {| Syslog.alerts := []; Syslog.readlines := length (replicate 101 " ") |}.
Proof.
  apply (@loop_stops_after_101_blanks Example.os 0 0 (replicate 101 " ") ["neighbor up"]).
  - apply Forall_forall. intros raw Hin%elem_of_replicate. destruct Hin as [-> _]. reflexivity.
  - lia.
  - reflexivity.
Defined.

Lemma loop_skips_blanks_witness :
  @Syslog.loop Example.os 0 0 (replicate 100 " " ++ " neighbor up " :: [])
  = {| Syslog.alerts :=
         @Syslog._prefixed Example.os 1 "INFO" (Py.strip " neighbor up ")
           :: Syslog.alerts (@Syslog.loop Example.os 0 (0 + 2) []);
       Syslog.readlines :=
         length (replicate 100 " ") + S (Syslog.readlines (@Syslog.loop Example.os 0 (0 + 2) [])) |}.
Proof.
  apply (@loop_skips_blanks Example.os 0 0 (replicate 100 " ") " neighbor up " []).
  - apply Forall_forall. intros raw Hin%elem_of_replicate. destruct Hin as [-> _]. reflexivity.
  - vm_compute. lia.
  - discriminate.
Defined.

Lemma loop_logs_every_line_witness :
  Syslog.alerts (@Syslog.loop Example.os 0 0 ["a"; ""; " b "])
  = @Syslog.stamped Example.os 0
      (List.filter (λ line, negb (bool_decide (line = ""))) (map Py.strip ["a"; ""; " b "])).
Proof.
  apply (@loop_logs_every_line Example.os 0 0 ["a"; ""; " b "]). reflexivity.
Defined.

Lemma prefixed_message_column_witness :
  ∃ head,
    @Syslog._prefixed Example.os 1 "INFO" "neighbor up"
    = Syslog.strftime (Os := Example.os) 1 +:+ head +:+ "neighbor up"
    ∧ String.length head = 17%nat.
Proof.
  apply (@prefixed_message_column Example.os 1 "INFO" "neighbor up"); vm_compute; lia.
Defined.

Example syslog_run :
  @Syslog.main Example.os ["neighbor 10.0.0.1 up"; ""; "   "; "  announced route  "]
  = {| Syslog.alerts :=
         ["Tue, 03 Nov 2026 08:39:00 INFO     4242   neighbor 10.0.0.1 up";
          "Tue, 03 Nov 2026 08:39:00 INFO     4242   announced route"];
       Syslog.readlines := 105 |}.
Proof. reflexivity. Qed.
